(** * Crown segmentation pipeline: a shallow embedding of
      [object_detection/helper_functions.py] and
      [object_detection/tree_detector.py].

    Floating point columns are idealised as exact rationals ([Q]); integer
    columns are [Z].  Where the code divides by a number that may be zero,
    the outcome is an [np_float], which can also be not finite.  Calls into third-party libraries (HDBSCAN, qhull's
    ConvexHull, shapely's predicates, scikit-image's peak_local_max,
    scikit-learn's KMeans, PDAL) are section variables or function
    arguments: the development fixes what this repository does around
    them.  Python exceptions are values of [exn]; a computation that may
    raise has type [result A]. *)

From Stdlib Require Import String Ascii.
From Stdlib Require Import DecimalString DecimalZ DecimalFacts.
From Stdlib Require Import List ZArith QArith Qround Qabs Bool Lia Lqa.
From Stdlib Require Import Sorted.
Import ListNotations.

Local Open Scope Z_scope.

(* ================================================================== *)
(** * Exceptions *)
(* ================================================================== *)

Inductive exn : Type :=
| ValueError
| IndexError
| TypeError
| AttributeError
| ZeroDivisionError
| QhullError
| LibraryError (code : Z).

Definition result (A : Type) : Type := (exn + A)%type.

Definition raise {A : Type} (e : exn) : result A := inl e.
Definition ret {A : Type} (a : A) : result A := inr a.

Definition bind {A B : Type} (m : result A) (k : A -> result B) : result B :=
  match m with
  | inl e => inl e
  | inr a => k a
  end.

Declare Scope result_scope.
Delimit Scope result_scope with result.
Notation "x <- m ;; k" := (bind m (fun x => k))
  (at level 61, m at next level, right associativity) : result_scope.
Notation "' pat <- m ;; k" := (bind m (fun x => match x with pat => k end))
  (at level 61, pat pattern, m at next level, right associativity) : result_scope.

(** A loop whose body may raise: the state reached so far is lost to the
    caller when the body raises, as with an uncaught Python exception. *)
Fixpoint for_each {A S : Type} (body : S -> A -> result S) (s : S) (l : list A)
  : result S :=
  match l with
  | [] => ret s
  | a :: l' => bind (body s a) (fun s' => for_each body s' l')
  end.

(* ================================================================== *)
(** * pandas helpers shared by both files *)
(* ================================================================== *)

(** Sorted list of the distinct keys, as [DataFrame.groupby] orders its
    groups. *)
Fixpoint insert_key (k : Z) (ks : list Z) : list Z :=
  match ks with
  | [] => [k]
  | h :: t =>
      if k <? h then k :: ks
      else if k =? h then ks
      else h :: insert_key k t
  end.

Definition unique_sorted (ks : list Z) : list Z :=
  fold_right insert_key [] ks.

(** [df.groupby(col)]: one [(name, group)] per distinct key, in key order,
    each group holding its rows in table order. *)
Definition groupby {A : Type} (key : A -> Z) (df : list A) : list (Z * list A) :=
  map (fun k => (k, filter (fun r => key r =? k) df))
      (unique_sorted (map key df)).

Definition Qmax (a b : Q) : Q := if Qle_bool a b then b else a.
Definition Qmin (a b : Q) : Q := if Qle_bool a b then a else b.

(** Python's builtin [min] and [max] over a column: [ValueError] on an
    empty sequence. *)
Definition py_min (l : list Q) : result Q :=
  match l with
  | [] => raise ValueError
  | x :: l' => ret (fold_left Qmin l' x)
  end.

Definition py_max (l : list Q) : result Q :=
  match l with
  | [] => raise ValueError
  | x :: l' => ret (fold_left Qmax l' x)
  end.

Definition Qsum (l : list Q) : Q := fold_right Qplus 0%Q l.

(** [Series.mean()]. *)
Definition mean (l : list Q) : Q := (Qsum l / inject_Z (Z.of_nat (length l)))%Q.

(* ================================================================== *)
(** * helper_functions.py *)
(* ================================================================== *)

Module helper_functions.

(** [np.round]: round half to even. *)
Definition np_round (q : Q) : Z :=
  let f := Qfloor q in
  match Qcompare (q - inject_Z f) (1 # 2) with
  | Lt => f
  | Gt => f + 1
  | Eq => if Z.even f then f else f + 1
  end.

(** [int(x)] and [ndarray.astype(np.int)]: truncation toward zero. *)
Definition to_int (q : Q) : Z := Z.quot (Qnum q) (Z.pos (Qden q)).

(** [round(x, 1)]: one decimal, half to even. *)
Definition py_round1 (q : Q) : Q := (inject_Z (np_round (q * 10)) / 10)%Q.

(** An entry of a float array: a number, or [None] when it is not finite
    (nan or an infinity). *)
Definition np_float : Type := option Q.

(** [a / b] for a number [b]: numpy warns about a division by zero and
    goes on with an infinity or nan. *)
Definition np_divide (a : np_float) (b : Q) : np_float :=
  match a with
  | Some x => if Qeq_bool b 0 then None else Some (x / b)%Q
  | None => None
  end.

(** [np.round] on a float: what is not finite stays as it is. *)
Definition np_round_float (a : np_float) : np_float :=
  option_map (fun x => inject_Z (np_round x)) a.

(** [a * b] for a number [b]: an infinity stays one, or becomes nan when
    [b] is zero. *)
Definition np_multiply (a : np_float) (b : Q) : np_float :=
  option_map (fun x => (x * b)%Q) a.

(** [round_to_val(a, round_val)]:
    [np.round(np.array(a, dtype=float) / round_val) * round_val].  For
    [round_val = 0] every entry is nan. *)
Definition round_to_val1 (round_val : Q) (x : np_float) : np_float :=
  np_multiply (np_round_float (np_divide x round_val)) round_val.

Definition round_to_val (a : list np_float) (round_val : Q) : list np_float :=
  map (round_to_val1 round_val) a.

(** [ndarray.astype(np.int)] on floats: truncation toward zero; the cast
    of what is not finite is the smallest 64-bit integer (on x86-64). *)
Definition astype_int (x : np_float) : Z :=
  match x with
  | Some q => to_int q
  | None => -9223372036854775808
  end.

(** A row of the frame built by [interpolate_df], before binning. *)
Record frame_row : Type := mk_frame_row {
  fX : Q;
  fY : Q;
  fZ : Q;
  f_x_round : np_float;
  f_y_round : np_float
}.

(** A row of [binned_data]: its keys are numbers. *)
Record grid_row : Type := mk_grid_row {
  gX : Q;
  gY : Q;
  gZ : Q;
  x_round : Q;
  y_round : Q
}.

(** Lexicographic order on the grouping key [(x_round, y_round)]. *)
Definition key_compare (a b : grid_row) : comparison :=
  match Qcompare (x_round a) (x_round b) with
  | Eq => Qcompare (y_round a) (y_round b)
  | c => c
  end.

(** [.max()] of two rows of one group: column-wise maximum, the key kept. *)
Definition row_max (a b : grid_row) : grid_row :=
  mk_grid_row (Qmax (gX a) (gX b)) (Qmax (gY a) (gY b)) (Qmax (gZ a) (gZ b))
              (x_round a) (y_round a).

Fixpoint bin_insert (r : grid_row) (l : list grid_row) : list grid_row :=
  match l with
  | [] => [r]
  | h :: t =>
      match key_compare r h with
      | Lt => r :: l
      | Eq => row_max h r :: t
      | Gt => h :: bin_insert r t
      end
  end.

(** The rows a [groupby] works on: those with a nan in a key column are
    left out ([dropna] is on by default).  The keys of [interpolate_df]
    are rounded numbers, so a key that is not finite is nan. *)
Definition dropna_keys (df : list frame_row) : list grid_row :=
  flat_map (fun r =>
              match f_x_round r, f_y_round r with
              | Some kx, Some ky => [mk_grid_row (fX r) (fY r) (fZ r) kx ky]
              | _, _ => []
              end) df.

(** One row per distinct key, in key order, with the column-wise maximum
    of the rows that share the key. *)
Definition bin_rows (df : list grid_row) : list grid_row :=
  fold_left (fun acc r => bin_insert r acc) df [].

(** [xyz_points.groupby(['x_round', 'y_round'], as_index=False).max()]. *)
Definition groupby_max (df : list frame_row) : list grid_row :=
  bin_rows (dropna_keys df).

(** The raster: a list of rows, each a list of cells. *)
Definition image : Type := list (list Q).

Definition np_zeros (rows cols : Z) : image :=
  repeat (repeat 0%Q (Z.to_nat cols)) (Z.to_nat rows).

(** numpy index normalisation along an axis of length [n]: negative
    indices count from the end, anything outside [-n, n) is an
    [IndexError]. *)
Definition np_index (n : Z) (i : Z) : result nat :=
  if (0 <=? i) && (i <? n) then ret (Z.to_nat i)
  else if (- n <=? i) && (i <? 0) then ret (Z.to_nat (i + n))
  else raise IndexError.

Fixpoint list_set {A : Type} (l : list A) (n : nat) (v : A) : list A :=
  match l, n with
  | [], _ => []
  | _ :: t, O => v :: t
  | h :: t, S n' => h :: list_set t n' v
  end.

Definition img_rows (img : image) : Z := Z.of_nat (length img).
Definition img_cols (img : image) : Z :=
  match img with
  | [] => 0
  | r :: _ => Z.of_nat (length r)
  end.

(** [img[r, c] = v]. *)
Definition img_set (img : image) (r c : Z) (v : Q) : result image :=
  (i <- np_index (img_rows img) r ;;
   j <- np_index (img_cols img) c ;;
   ret (list_set img i (list_set (nth i img []) j v)))%result.

(** [img[r, c]]. *)
Definition img_get (img : image) (r c : Z) : result Q :=
  (i <- np_index (img_rows img) r ;;
   j <- np_index (img_cols img) c ;;
   ret (nth j (nth i img []) 0%Q))%result.

(** The frame of [interpolate_df] before binning: [Z] squared, and the
    two rounded columns. *)
Definition rounded_frame (xyz_points : list (Q * Q * Q)) (round_val : Q)
  : list frame_row :=
  map (fun p : Q * Q * Q =>
         let '(x, y, z) := p in
         mk_frame_row x y (z * z)%Q
           (round_to_val1 round_val (Some x))
           (round_to_val1 round_val (Some y)))
      xyz_points.

(** The grid index of an offset: [round_to_val(arr / round_val, 1).astype(np.int)]. *)
Definition grid_index (offset round_val : Q) : Z :=
  astype_int (round_to_val1 1 (np_divide (Some offset) round_val)).

(** The fancy-indexed assignment [img[rows, cols] = values], cell by cell. *)
Definition img_assign (img : image) (cells : list (Z * Z * Q)) : result image :=
  for_each (fun im (c : Z * Z * Q) => let '(r, k, v) := c in img_set im r k v)
           img cells.

(** What [interpolate_df] computes before it touches the raster. *)
Record raster_plan : Type := mk_raster_plan {
  plan_minx : Q;
  plan_miny : Q;
  plan_rows : Z;                    (* img_size_y + 1 *)
  plan_cols : Z;                    (* img_size_x + 1 *)
  plan_cells : list (Z * Z * Q)     (* (row, col, value) of every binned row *)
}.

Definition plan_raster (xyz_points : list (Q * Q * Q)) (round_val : Q)
  : result raster_plan :=
  (let binned_data := groupby_max (rounded_frame xyz_points round_val) in
   minx <- py_min (map x_round binned_data) ;;
   miny <- py_min (map y_round binned_data) ;;
   m1 <- py_min (map x_round binned_data) ;;
   let x_arr := map (fun b => x_round b - m1)%Q binned_data in
   m2 <- py_min (map y_round binned_data) ;;
   let y_arr := map (fun b => y_round b - m2)%Q binned_data in
   mx <- py_max x_arr ;;
   let img_size_x := to_int (py_round1 mx) in
   my <- py_max y_arr ;;
   let img_size_y := to_int (py_round1 my) in
   ret (mk_raster_plan minx miny (img_size_y + 1) (img_size_x + 1)
          (combine (combine (map (fun y => grid_index y round_val) y_arr)
                            (map (fun x => grid_index x round_val) x_arr))
                   (map gZ binned_data))))%result.

(** [interpolate_df(xyz_points, round_val)]: the raster, and the two
    offsets [minx], [miny]. *)
Definition interpolate_df (xyz_points : list (Q * Q * Q)) (round_val : Q)
  : result (image * Q * Q) :=
  (plan <- plan_raster xyz_points round_val ;;
   let img := np_zeros (plan_rows plan) (plan_cols plan) in
   img' <- img_assign img (plan_cells plan) ;;
   ret (img', plan_minx plan, plan_miny plan))%result.

(** [add_vectors(vec)]. *)
Definition add_vectors (vec : (Z * Z) * (Q * Q * Q) * Q * Q) : Q * Q * Q :=
  let '(coords, mins, z, round_val) := vec in
  let '(y, x) := coords in
  let '(minx, miny, minz) := mins in
  (minx + inject_Z x * round_val, miny + inject_Z y * round_val, z)%Q.

(** [set(...)] turned back into a list: duplicates collapse.  The order of
    a Python set is unspecified; first occurrences are kept here. *)
Fixpoint dedup {A : Type} (eqb : A -> A -> bool) (l : list A) : list A :=
  match l with
  | [] => []
  | a :: l' => a :: filter (fun b => negb (eqb a b)) (dedup eqb l')
  end.

Definition index_eqb (a b : Z * Z) : bool :=
  (fst a =? fst b) && (snd a =? snd b).

Definition coord_eqb (a b : Q * Q * Q) : bool :=
  let '(ax, ay, az) := a in
  let '(bx, by_, bz) := b in
  Qeq_bool ax bx && Qeq_bool ay by_ && Qeq_bool az bz.

Fixpoint sequence {A : Type} (l : list (result A)) : result (list A) :=
  match l with
  | [] => ret []
  | m :: l' => (a <- m ;; r <- sequence l' ;; ret (a :: r))%result
  end.

Section Peaks.

(** [skimage.feature.peak_local_max(img, min_distance=...)]: the
    [(row, col)] positions of the local maxima. *)
Variable peak_local_max : image -> Z -> list (Z * Z).

(** [find_n_clusters_peaks(cluster_data, round_val, min_dist)]. *)
Definition find_n_clusters_peaks (cluster_data : list (Q * Q * Q))
    (round_val : Q) (min_dist : Z) : result (Z * list (Q * Q * Q)) :=
  ('(img, minx, miny) <- interpolate_df cluster_data round_val ;;
   let indices := dedup index_eqb (peak_local_max img min_dist) in
   let n_clusters := Z.of_nat (length indices) in
   let mins := repeat (minx, miny, 0%Q) (length indices) in
   z <- sequence (map (fun i => img_get img (fst i) (snd i)) indices) ;;
   let round_val_for_map := repeat round_val (length indices) in
   let mapped :=
     map add_vectors
         (combine (combine (combine indices mins) z) round_val_for_map) in
   let coordinates := dedup coord_eqb mapped in
   ret (Z.max 1 n_clusters, coordinates))%result.

End Peaks.

End helper_functions.

Import helper_functions.

(* ================================================================== *)
(** * tree_detector.py *)
(* ================================================================== *)

Module DetectorTree.

(** One record of the point cloud.  The cluster tables reuse the record,
    with the cluster label written to [Classification], as the frames of
    [hdbscan_on_points] do. *)
Record point : Type := mk_point {
  X : Q;
  Y : Q;
  Zc : Q;                 (* column 'Z' *)
  Classification : Z;
  ReturnNumber : Z;
  NumberOfReturns : Z;
  Intensity : Z;
  HAG1 : Q;
  Coplanar : Q;
  NormalX : Q;
  NormalY : Q;
  NormalZ : Q;
  Red : Z;
  Green : Z;
  Blue : Z
}.

Definition set_Classification (p : point) (c : Z) : point :=
  mk_point (X p) (Y p) (Zc p) c (ReturnNumber p) (NumberOfReturns p)
           (Intensity p) (HAG1 p) (Coplanar p) (NormalX p) (NormalY p)
           (NormalZ p) (Red p) (Green p) (Blue p).

(** A row of [self.tree_df]. *)
Record polygon_row : Type := mk_polygon_row {
  xy_clusterID : Z;
  geometry : list (Q * Q);     (* the closed ring of the polygon *)
  meanZ : Q;
  n_pts : Z;
  NX : Q;
  NY : Q;
  NZ : Q;
  poly_Coplanar : Q
}.

(* ------------------------------------------------------------------ *)
(** ** [__init__]: the masks *)

Definition ground_mask (raw_points : list point) : list bool :=
  map (fun p => Classification p =? 2) raw_points.

Definition n_returns_mask (raw_points : list point) : list bool :=
  map (fun p => NumberOfReturns p <? 2) raw_points.

Definition np_vstack (rows : list (list bool)) : list (list bool) := rows.

Fixpoint zip_with {A B C : Type} (f : A -> B -> C) (l : list A) (m : list B)
  : list C :=
  match l, m with
  | a :: l', b :: m' => f a b :: zip_with f l' m'
  | _, _ => []
  end.

(** [np.sum(m, axis=0)] of a boolean matrix: the column sums, [True]
    counting 1. *)
Definition np_sum_axis0 (m : list (list bool)) : list Z :=
  match m with
  | [] => []
  | r :: rs =>
      fold_left (fun acc row => zip_with Z.add acc (map Z.b2z row)) rs
                (map Z.b2z r)
  end.

Definition masks (raw_points : list point) : list bool :=
  map (fun s => s =? 0)
      (np_sum_axis0 (np_vstack [ground_mask raw_points;
                                n_returns_mask raw_points])).

(** [a[mask]]: the entries where the mask is [True]. *)
Fixpoint boolean_index {A : Type} (a : list A) (mask : list bool) : list A :=
  match a, mask with
  | x :: a', b :: mask' =>
      if b then x :: boolean_index a' mask' else boolean_index a' mask'
  | _, _ => []
  end.

(* ------------------------------------------------------------------ *)
(** ** [hdbscan_on_points] *)

(** The array handed to the clusterer: [(X, Y, Z)] rows when [xyz] holds,
    [(X, Y)] rows otherwise. *)
Definition clustering_columns (xyz : bool) (masked_points : list point)
  : list (list Q) :=
  if xyz then map (fun p => [X p; Y p; Zc p]) masked_points
  else map (fun p => [X p; Y p]) masked_points.

Section Hdbscan.

(** [HDBSCAN(min_cluster_size, min_samples).fit(xy).labels_]. *)
Variable HDBSCAN_fit : Z -> Z -> list (list Q) -> result (list Z).

(** [pd.DataFrame({... 'Classification': labels})]: columns of unequal
    length are a [ValueError]. *)
Definition with_labels (pts : list point) (labels : list Z)
  : result (list point) :=
  if (length pts =? length labels)%nat
  then ret (zip_with set_Classification pts labels)
  else raise ValueError.

Definition hdbscan_on_points (raw_points : list point)
    (min_cluster_size min_samples : Z) (xyz : bool) : result (list point) :=
  (let masked_points := boolean_index raw_points (masks raw_points) in
   let xy := clustering_columns xyz masked_points in
   labels <- HDBSCAN_fit min_cluster_size min_samples xy ;;
   clustered_points <- with_labels masked_points labels ;;
   (* remove "noise" points *)
   ret (filter (fun p => 0 <=? Classification p) clustered_points))%result.

End Hdbscan.

(* ------------------------------------------------------------------ *)
(** ** [convex_hullify] *)

(** Positions of the rows of a group: [get_group(name).index]. *)
Fixpoint index_where {A : Type} (f : A -> bool) (df : list A) (i : nat)
  : list nat :=
  match df with
  | [] => []
  | r :: df' =>
      if f r then i :: index_where f df' (S i) else index_where f df' (S i)
  end.

Fixpoint drop_rows {A : Type} (df : list A) (labels : list nat) (i : nat)
  : list A :=
  match df with
  | [] => []
  | r :: df' =>
      if existsb (Nat.eqb i) labels then drop_rows df' labels (S i)
      else r :: drop_rows df' labels (S i)
  end.

(** [df.drop(labels, inplace=...)]: the pair of the frame object after the
    call and of the returned value.  Without [inplace] the frame is left
    alone and a new frame is returned; with it the frame is modified and
    [None] is returned. *)
Definition DataFrame_drop {A : Type} (inplace : bool) (df : list A)
    (labels : list nat) : list A * option (list A) :=
  if inplace then (drop_rows df labels 0%nat, None)
  else (df, Some (drop_rows df labels 0%nat)).

Fixpoint shoelace (ring : list (Q * Q)) : Q :=
  match ring with
  | a :: (b :: _) as t => (fst a * snd b - fst b * snd a + shoelace t)%Q
  | _ => 0%Q
  end.

(** [loads(wkt).area]. *)
Definition area (ring : list (Q * Q)) : Q := (Qabs (shoelace ring) / 2)%Q.

(** [loads(wkt)]: a ring of fewer than four coordinates is rejected. *)
Definition loads (wkt : list (Q * Q)) : result (list (Q * Q)) :=
  if (length wkt <? 4)%nat then raise ValueError else ret wkt.

(** Python's [n / a] with a float divisor. *)
Definition py_div (n a : Q) : result Q :=
  if Qeq_bool a 0 then raise ZeroDivisionError else ret (n / a)%Q.

Definition nth_result {A : Type} (l : list A) (i : nat) : result A :=
  match nth_error l i with
  | Some a => ret a
  | None => raise IndexError
  end.

(** The plausibility checks of [convex_hullify], in source order. *)
Inductive check : Type := CheckCount | CheckDensity | CheckArea.

(** What the method acts on: the caller's [points] frame, [self.tree_df],
    and the checks evaluated so far, as [(group name, check)]. *)
Record hull_state : Type := mk_hull_state {
  points_frame : list point;
  tree_df : list polygon_row;
  evaluated : list (Z * check)
}.

Definition log_check (name : Z) (c : check) (st : hull_state) : hull_state :=
  mk_hull_state (points_frame st) (tree_df st) (evaluated st ++ [(name, c)]).

(** [points.drop(points.groupby('Classification').get_group(name).index)]:
    the returned frame is not bound to anything. *)
Definition drop_group (name : Z) (st : hull_state) : hull_state :=
  let labels :=
    index_where (fun r => Classification r =? name) (points_frame st) 0%nat in
  let '(frame, _) := DataFrame_drop false (points_frame st) labels in
  mk_hull_state frame (tree_df st) (evaluated st).

(** [self.tree_df.loc[len(self.tree_df)] = row]. *)
Definition append_row (row : polygon_row) (st : hull_state) : hull_state :=
  mk_hull_state (points_frame st) (tree_df st ++ [row]) (evaluated st).

Section Hull.

(** [ConvexHull(coords).vertices]: positions, within [coords], of the hull
    vertices in qhull's traversal order; [QhullError] on degenerate
    input. *)
Variable ConvexHull : list (Q * Q) -> result (list nat).

(** The ring written to the WKT string: the hull vertices, then the first
    vertex again. *)
Definition build_wkt (coords : list (Q * Q)) (vertices : list nat)
  : result (list (Q * Q)) :=
  (ring <- sequence (map (nth_result coords) vertices) ;;
   v0 <- nth_result vertices 0%nat ;;
   first <- nth_result coords v0 ;;
   ret (ring ++ [first]))%result.

(** [ConvexHull] over the group's [(X, Y)], the WKT ring, and [loads]. *)
Definition hull_polygon (group : list point) : result (list (Q * Q)) :=
  (let coords := map (fun p => (X p, Y p)) group in
   vertices <- ConvexHull coords ;;
   wkt <- build_wkt coords vertices ;;
   loads wkt)%result.

(** The body of the loop over the groups. *)
Definition hullify_group (kmean_pols : bool) (st : hull_state)
    (ng : Z * list point) : result unit * hull_state :=
  let '(name, group) := ng in
  let shape0 := Z.of_nat (length group) in
  let st := log_check name CheckCount st in
  if shape0 <=? 3 then
    (ret tt, drop_group name st)
  else
    match hull_polygon group with
    | inl e => (raise e, st)
    | inr poly =>
        let st := log_check name CheckDensity st in
        match py_div (inject_Z shape0) (area poly) with
        | inl e => (raise e, st)
        | inr density =>
            if Qle_bool density 3 then (ret tt, drop_group name st)
            else
              (* [elif kmean_pols and area >= 800]: the area is looked at
                 only when [kmean_pols] holds *)
              let st := if kmean_pols then log_check name CheckArea st
                        else st in
              if kmean_pols && Qle_bool 800 (area poly)
              then (ret tt, drop_group name st)
              else
                (ret tt,
                 append_row
                   (mk_polygon_row name poly (mean (map Zc group)) shape0
                      (mean (map NormalX group)) (mean (map NormalY group))
                      (mean (map NormalZ group)) (mean (map Coplanar group)))
                   st)
        end
    end.

(** A loop over a mutable object: when the body raises, the object keeps
    what the earlier iterations wrote. *)
Fixpoint hullify_loop (kmean_pols : bool) (st : hull_state)
    (groups : list (Z * list point)) : result unit * hull_state :=
  match groups with
  | [] => (ret tt, st)
  | ng :: groups' =>
      match hullify_group kmean_pols st ng with
      | (inl e, st') => (raise e, st')
      | (inr _, st') => hullify_loop kmean_pols st' groups'
      end
  end.

(** [convex_hullify(points, kmean_pols)], started with [self.tree_df]
    holding [old_tree_df]: the outcome, and the caller's frame, the
    polygon table and the log of checks as the call leaves them. *)
Definition convex_hullify (old_tree_df : list polygon_row)
    (points : list point) (kmean_pols : bool) : result unit * hull_state :=
  (* empties the tree.df if it exists *)
  let '(emptied, _) :=
    DataFrame_drop true old_tree_df (seq 0 (length old_tree_df)) in
  hullify_loop kmean_pols (mk_hull_state points emptied [])
               (groupby Classification points).

End Hull.

(* ------------------------------------------------------------------ *)
(** ** [find_points_in_polygons] *)

(** A row of [self.xy_grouped_points]: the point, its [pid], and the
    columns of the polygon it was joined to. *)
Record grouped_point : Type := mk_grouped_point {
  pid : Z;
  g_point : point;
  polygon_id : nat;              (* 'index_right', renamed *)
  g_polygon : polygon_row        (* the joined columns of [polygon_df] *)
}.

Definition g_xy_clusterID (g : grouped_point) : Z :=
  xy_clusterID (g_polygon g).

(** [former_preprocess_now_add_pid]: a fresh frame, [pid] its row number. *)
Definition former_preprocess_now_add_pid (points : list point)
  : list (Z * point) :=
  combine (map Z.of_nat (seq 0 (length points))) points.

(** [self.raw_points[self.ground_mask.__invert__()]]. *)
Definition cluster_points (raw_points : list point) : list point :=
  boolean_index raw_points (map negb (ground_mask raw_points)).

Section Join.

(** shapely's [intersects] between a point and a polygon, the predicate
    [sjoin] uses when none is given. *)
Variable intersects : Q * Q -> list (Q * Q) -> bool.

(** [sjoin(points_df, polygon_df, how='left')]: one row per pair of a
    point and a polygon it meets; a point that meets none keeps one row,
    with NaN ([None]) in the right-hand columns.  [polygon_df] is indexed
    by row number, as [convex_hullify] builds it. *)
Definition sjoin_left (points_df : list (Z * point))
    (polygon_df : list polygon_row)
  : list (Z * point * option (nat * polygon_row)) :=
  flat_map
    (fun ip : Z * point =>
       let '(i, p) := ip in
       match filter (fun jr : nat * polygon_row =>
                       intersects (X p, Y p) (geometry (snd jr)))
                    (combine (seq 0 (length polygon_df)) polygon_df) with
       | [] => [(i, p, None)]
       | ms => map (fun m => (i, p, Some m)) ms
       end)
    points_df.

(** [grouped_points[~np.isnan(grouped_points.index_right)]]. *)
Fixpoint drop_nan (l : list (Z * point * option (nat * polygon_row)))
  : list grouped_point :=
  match l with
  | [] => []
  | (i, p, Some (j, r)) :: l' => mk_grouped_point i p j r :: drop_nan l'
  | (_, _, None) :: l' => drop_nan l'
  end.

Definition find_points_in_polygons (raw_points : list point)
    (polygon_df : list polygon_row) : list grouped_point :=
  (* remove ground points *)
  let cluster_points := cluster_points raw_points in
  let cluster_data := former_preprocess_now_add_pid cluster_points in
  let grouped_points := sjoin_left cluster_data polygon_df in
  let grouped_points := drop_nan grouped_points in
  (* remove noise *)
  filter (fun g => 0 <=? g_xy_clusterID g) grouped_points.

End Join.

(** The [intersects] predicate on the closed convex rings that
    [convex_hullify] writes: the point lies on one side of every edge. *)
Definition cross (a b p : Q * Q) : Q :=
  ((fst b - fst a) * (snd p - snd a) - (snd b - snd a) * (fst p - fst a))%Q.

Fixpoint edge_sides (ring : list (Q * Q)) (p : Q * Q) : list Q :=
  match ring with
  | a :: (b :: _) as t => cross a b p :: edge_sides t p
  | _ => []
  end.

Definition convex_intersects (p : Q * Q) (ring : list (Q * Q)) : bool :=
  forallb (fun c => Qle_bool 0 c) (edge_sides ring p)
  || forallb (fun c => Qle_bool c 0) (edge_sides ring p).

(* ------------------------------------------------------------------ *)
(** ** [kmean_cluster_group], [second_filter], [kmean_cluster] *)

(** The arguments of the [KMeans] constructor; [init = None] is the
    library's default initialisation. *)
Record KMeans_params : Type := mk_KMeans {
  n_clusters : Z;
  max_iter : Z;
  init : option (list (Q * Q * Q))
}.

(** [labs.labs * 10] and the density-cluster label, rendered and joined
    with no separator. *)
Definition combi_id (astype_str : Z -> string) (value_clusterID xy : Z)
  : string :=
  (astype_str value_clusterID ++ astype_str xy)%string.

Fixpoint index_of (k : string) (uniques : list string) (i : nat)
  : option nat :=
  match uniques with
  | [] => None
  | u :: us => if String.eqb k u then Some i else index_of k us (S i)
  end.

Fixpoint factorize_from (uniques : list string) (values : list string)
  : list Z :=
  match values with
  | [] => []
  | k :: values' =>
      match index_of k uniques 0%nat with
      | Some i => Z.of_nat i :: factorize_from uniques values'
      | None =>
          Z.of_nat (length uniques) :: factorize_from (uniques ++ [k]) values'
      end
  end.

(** [pd.factorize(values)[1]], continued from [uniques]: the distinct
    values in order of first appearance. *)
Fixpoint factorize_uniques (uniques : list string) (values : list string)
  : list string :=
  match values with
  | [] => uniques
  | k :: values' =>
      match index_of k uniques 0%nat with
      | Some _ => factorize_uniques uniques values'
      | None => factorize_uniques (uniques ++ [k]) values'
      end
  end.

(** The code of a value known to [uniques]; [-1] is pandas' code for a
    value that is not. *)
Definition code_of (uniques : list string) (k : string) : Z :=
  match index_of k uniques 0%nat with
  | Some i => Z.of_nat i
  | None => -1
  end.

(** [pd.factorize(values)[0]]: the codes, numbered by first appearance. *)
Definition pd_factorize (values : list string) : list Z :=
  factorize_from [] values.

(** Lines 303 to 314: from the sub-cluster label and the density-cluster
    label of every row to [(value_clusterID, Classification)]. *)
Definition fuse_labels (astype_str : Z -> string) (rows : list (Z * Z))
  : list (Z * Z) :=
  let value_clusterID := map (fun r => fst r * 10) rows in
  let combi_ids :=
    zip_with (combi_id astype_str) value_clusterID (map snd rows) in
  combine value_clusterID (pd_factorize combi_ids).

(** numpy's rendering of an integer array. *)
Definition astype_str_int (z : Z) : string :=
  NilZero.string_of_int (Z.to_int z).

(** numpy's rendering of an integral value held in a float array. *)
Definition astype_str_float (z : Z) : string :=
  (astype_str_int z ++ ".0")%string.

(** A row of [self.kmean_grouped_points] once the labels are written. *)
Record fused_point : Type := mk_fused_point {
  k_point : grouped_point;
  value_clusterID : Z;
  k_Classification : Z
}.

Fixpoint has_dup (l : list Z) : bool :=
  match l with
  | [] => false
  | a :: l' => existsb (Z.eqb a) l' || has_dup l'
  end.

Fixpoint lookup (i : Z) (frame : list (Z * Z)) : option Z :=
  match frame with
  | [] => None
  | (j, v) :: frame' => if i =? j then Some v else lookup i frame'
  end.

Fixpoint index_eq (a b : list Z) : bool :=
  match a, b with
  | [], [] => true
  | x :: a', y :: b' => (x =? y) && index_eq a' b'
  | _, _ => false
  end.

(** [self.update(other)] on the 'labs' column, both frames given as
    [(index, labs)] rows: [other] is reindexed like [self], which pandas
    refuses when [other] has a duplicated index different from [self]'s;
    then every row of [self] whose index occurs in [other] takes the
    value found there. *)
Definition DataFrame_update (self other : list (Z * Z))
  : result (list (Z * Z)) :=
  if index_eq (map fst other) (map fst self) then
    ret (combine (map fst self) (map snd other))
  else if has_dup (map fst other) then raise ValueError
  else
    ret (map (fun iv : Z * Z =>
                match lookup (fst iv) other with
                | Some v => (fst iv, v)
                | None => iv
                end) self).

(** [pd.DataFrame(data={'labs': values, ...}, index=index)]. *)
Definition new_frame (index values : list Z) : result (list (Z * Z)) :=
  if (length index =? length values)%nat then ret (combine index values)
  else raise ValueError.

(** [float(self.tree_df.loc[self.tree_df['xy_clusterID'] == int(name)]
    .geometry.area)]: [float] accepts a one-row selection only. *)
Definition tree_area (tree_df : list polygon_row) (name : Z) : result Q :=
  match filter (fun r => xy_clusterID r =? name) tree_df with
  | [r] => ret (area (geometry r))
  | _ => raise TypeError
  end.

Definition set_estimates (g : grouped_point) (e : Q * Q * Q * Q)
  : grouped_point :=
  let '(nx, ny, nz, cop) := e in
  let p := g_point g in
  mk_grouped_point (pid g)
    (mk_point (X p) (Y p) (Zc p) (Classification p) (ReturnNumber p)
              (NumberOfReturns p) (Intensity p) (HAG1 p) cop nx ny nz
              (Red p) (Green p) (Blue p))
    (polygon_id g) (g_polygon g).

(** The state the loop of [kmean_cluster] carries: the 'labs' column of
    the local frame [labs], as [(pid, labs)] rows, and
    [self.tree_coords]. *)
Record kmean_state : Type := mk_kmean_state {
  labs : list (Z * Z);
  tree_coords : list (Q * Q * Q)
}.

(* ------------------------------------------------------------------ *)
(** ** Calls by keyword *)

(** The parameters [find_n_clusters_peaks] declares; none has a
    default. *)
Definition find_n_clusters_peaks_parameters : list string :=
  ["cluster_data"%string; "round_val"%string; "min_dist"%string].

(** The keywords [kmean_cluster_group] and [find_peaks] call it with. *)
Definition find_n_clusters_peaks_keywords : list string :=
  ["cluster_data"%string; "min_dist"%string; "round_val"%string;
   "relative_threshold"%string].

(** A call that passes all its arguments by keyword, to a function whose
    parameters have no default: a keyword that names no parameter, or a
    parameter left without argument, raises [TypeError] before the body
    runs. *)
Definition call_by_keyword {A : Type} (parameters keywords : list string)
    (body : result A) : result A :=
  if forallb (fun k => existsb (String.eqb k) parameters) keywords
     && forallb (fun p => existsb (String.eqb p) keywords) parameters
  then body
  else raise TypeError.

Section Kmeans.

Variable peak_local_max : image -> Z -> list (Z * Z).

(** [KMeans(...).fit(cluster_data).labels_]. *)
Variable KMeans_fit : KMeans_params -> list (Q * Q * Q) -> result (list Z).

(** The [filters.normal] and [filters.approximatecoplanar] stages of the
    second PDAL pipeline: per point, the recomputed
    [(NormalX, NormalY, NormalZ, Coplanar)]. *)
Variable pdal_estimate : list grouped_point -> result (list (Q * Q * Q * Q)).

(** numpy's [astype(str)] on the two label columns. *)
Variable astype_str : Z -> string.

(** [kmean_cluster_group]: the labels, and [self.tree_coords] as the
    call leaves it.  [find_n_clusters_peaks] is called by keyword, the
    keyword [relative_threshold] among them. *)
Definition kmean_cluster_group (self_tree_coords : list (Q * Q * Q))
    (group : list grouped_point) (min_dist : Z) (relative_threshold : Q)
    (round_val : Q) : result (list Z * list (Q * Q * Q)) :=
  (let cluster_data :=
     map (fun g => (X (g_point g), Y (g_point g), Zc (g_point g))) group in
   '(n, coordinates) <-
      call_by_keyword find_n_clusters_peaks_parameters
        find_n_clusters_peaks_keywords
        (find_n_clusters_peaks peak_local_max cluster_data round_val
                               min_dist) ;;
   if (0 <? length coordinates)%nat then
     let self_tree_coords := self_tree_coords ++ coordinates in
     (* print('max iter is 1') *)
     labels <- KMeans_fit (mk_KMeans n 100 (Some coordinates)) cluster_data ;;
     ret (labels, self_tree_coords)
   else
     labels <- KMeans_fit (mk_KMeans n 1 None) cluster_data ;;
     ret (labels, self_tree_coords))%result.

(** The same function with the call of [find_n_clusters_peaks] made by
    the keywords [keywords] instead. *)
Definition kmean_cluster_group_call (keywords : list string)
    (self_tree_coords : list (Q * Q * Q)) (group : list grouped_point)
    (min_dist : Z) (relative_threshold : Q) (round_val : Q)
  : result (list Z * list (Q * Q * Q)) :=
  (let cluster_data :=
     map (fun g => (X (g_point g), Y (g_point g), Zc (g_point g))) group in
   '(n, coordinates) <-
      call_by_keyword find_n_clusters_peaks_parameters keywords
        (find_n_clusters_peaks peak_local_max cluster_data round_val
                               min_dist) ;;
   if (0 <? length coordinates)%nat then
     let self_tree_coords := self_tree_coords ++ coordinates in
     labels <- KMeans_fit (mk_KMeans n 100 (Some coordinates)) cluster_data ;;
     ret (labels, self_tree_coords)
   else
     labels <- KMeans_fit (mk_KMeans n 1 None) cluster_data ;;
     ret (labels, self_tree_coords))%result.

(** The PDAL pipeline of [second_filter]: [filters.range] on
    [HAG1[0.5:)], then the two estimators. *)
Definition pdal_pipeline (points : list grouped_point)
  : result (list grouped_point) :=
  (let kept := filter (fun g => Qle_bool (1 # 2) (HAG1 (g_point g))) points in
   estimates <- pdal_estimate kept ;;
   ret (zip_with set_estimates kept estimates))%result.

(** [second_filter]: the pipeline's output, or the input when it raises. *)
Definition second_filter (points : list grouped_point) : list grouped_point :=
  match pdal_pipeline points with
  | inr out_points => out_points
  | inl _ => points
  end.

(** A tree needs to be bigger than 2 square metres and have more than 10
    points. *)
Definition splittable (name : Z) (tree_area : Q) (group : list grouped_point)
  : bool :=
  (0 <=? name) && Qle_bool 2 tree_area && (10 <=? Z.of_nat (length group)).

(** The columns of [to_cluster] that the new 'labs' frame is built
    from.  The records [second_filter] hands back unchanged carry the
    join's column names, where the points' 'Coplanar' is 'Coplanar_left':
    reading [to_cluster.Coplanar] from them is an [AttributeError]. *)
Definition to_cluster_index (group : list grouped_point)
  : result (list Z) :=
  match pdal_pipeline group with
  | inr out_points => ret (map pid out_points)
  | inl _ => raise AttributeError
  end.

(** The body of the loop over the polygons. *)
Definition kmean_cluster_body (tree_df : list polygon_row) (min_dist : Z)
    (relative_threshold round_val : Q) (st : kmean_state)
    (ng : Z * list grouped_point) : result kmean_state :=
  (let '(name, group) := ng in
   a <- tree_area tree_df name ;;
   if splittable name a group then
     (* run through second pdal filter *)
     let to_cluster := second_filter group in
     (* actual kmeans clustering *)
     '(kmeans_labels, coords) <-
        kmean_cluster_group (tree_coords st) to_cluster min_dist
                            relative_threshold round_val ;;
     (* create the new labs dataframe *)
     index <- to_cluster_index group ;;
     new_labs <- new_frame index kmeans_labels ;;
     (* add the new labels to the labels dataframe *)
     labs' <- DataFrame_update (labs st) new_labs ;;
     ret (mk_kmean_state labs' coords)
   else
     let new_labs := map (fun g => (pid g, -1)) group in
     labs' <- DataFrame_update (labs st) new_labs ;;
     ret (mk_kmean_state labs' (tree_coords st)))%result.

(** [kmean_cluster]: the rows of [self.kmean_grouped_points] with
    'value_clusterID' and 'Classification' written, and
    [self.tree_coords].  The frame is indexed by [pid], so the 'labs'
    column lines up with it row by row. *)
Definition kmean_cluster (tree_df : list polygon_row)
    (self_tree_coords : list (Q * Q * Q))
    (xy_grouped_points : list grouped_point) (min_dist : Z)
    (relative_threshold round_val : Q)
  : result (list fused_point * list (Q * Q * Q)) :=
  (let labs0 := map (fun g => (pid g, 0)) xy_grouped_points in
   st <- for_each (kmean_cluster_body tree_df min_dist relative_threshold
                                      round_val)
                  (mk_kmean_state labs0 self_tree_coords)
                  (groupby g_xy_clusterID xy_grouped_points) ;;
   let fused :=
     fuse_labels astype_str
       (combine (map snd (labs st)) (map g_xy_clusterID xy_grouped_points)) in
   ret (zip_with (fun g vc => mk_fused_point g (fst vc) (snd vc))
                 xy_grouped_points fused,
        tree_coords st))%result.

End Kmeans.

(* ------------------------------------------------------------------ *)
(** ** [find_peaks] *)

Section FindPeaksCode.

(** What the body of [find_n_clusters_peaks] makes of a frame of grouped
    points handed over as [cluster_data], as [find_peaks] does. *)
Variable peaks_of_frame :
  list grouped_point -> Q -> Z -> result (Z * list (Q * Q * Q)).

(** The body of the loop of [find_peaks]; the result of the call is
    bound to two local names and not used. *)
Definition find_peaks_body (tree_df : list polygon_row) (min_dist : Z)
    (relative_threshold round_val : Q) (_ : unit)
    (ng : Z * list grouped_point) : result unit :=
  (let '(name, group) := ng in
   a <- tree_area tree_df name ;;
   if splittable name a group then
     _ <- call_by_keyword find_n_clusters_peaks_parameters
            find_n_clusters_peaks_keywords
            (peaks_of_frame group round_val min_dist) ;;
     ret tt
   else ret tt)%result.

(** [find_peaks(grouped_points, min_dist, relative_threshold,
    round_val)]. *)
Definition find_peaks (tree_df : list polygon_row)
    (grouped_points : list grouped_point) (min_dist : Z)
    (relative_threshold round_val : Q) : result unit :=
  for_each (find_peaks_body tree_df min_dist relative_threshold round_val)
           tt (groupby g_xy_clusterID grouped_points).

End FindPeaksCode.

End DetectorTree.

Import DetectorTree.

(* ================================================================== *)
(** * Predicates used in the statements *)
(* ================================================================== *)

Section HullSpec.

Variable ConvexHull : list (Q * Q) -> result (list nat).
Variable points : list point.
Variable kmean_pols : bool.

Let groups := groupby Classification points.

(** What a row of [tree_df] records about the group it was built from. *)
Definition emitted_from (r : polygon_row) (group : list point) : Prop :=
  In (xy_clusterID r, group) groups
  /\ hull_polygon ConvexHull group = inr (geometry r)
  /\ n_pts r = Z.of_nat (length group)
  /\ 4 <= n_pts r
  /\ (3 < inject_Z (n_pts r) / area (geometry r))%Q.

(** What the evaluation of a check tells about the group. *)
Definition check_reached (c : check) (group : list point) : Prop :=
  match c with
  | CheckCount => True
  | CheckDensity => (3 < length group)%nat
  | CheckArea =>
      kmean_pols = true
      /\ (3 < length group)%nat
      /\ exists poly,
           hull_polygon ConvexHull group = inr poly
           /\ (3 < inject_Z (Z.of_nat (length group)) / area poly)%Q
  end.

Definition hull_inv (st : hull_state) : Prop :=
  (forall r, In r (tree_df st) -> exists group, emitted_from r group)
  /\ (forall name c, In (name, c) (evaluated st) ->
        exists group, In (name, group) groups /\ check_reached c group).

End HullSpec.

(** The row [convex_hullify] writes for the group [name] once its hull
    polygon [poly] has passed the checks. *)
Definition hull_row (name : Z) (group : list point) (poly : list (Q * Q))
  : polygon_row :=
  mk_polygon_row name poly (mean (map Zc group)) (Z.of_nat (length group))
    (mean (map NormalX group)) (mean (map NormalY group))
    (mean (map NormalZ group)) (mean (map Coplanar group)).

(** The rows [groupby] works on in [interpolate_df] when [round_val] is
    not zero: every key is a number. *)
Definition number_frame (xyz_points : list (Q * Q * Q)) (round_val : Q)
  : list grid_row :=
  map (fun p : Q * Q * Q =>
         let '(x, y, z) := p in
         mk_grid_row x y (z * z)%Q
           (inject_Z (np_round (x / round_val)) * round_val)%Q
           (inject_Z (np_round (y / round_val)) * round_val)%Q)
      xyz_points.

(** Two binned rows carry the same key; the key of the first comes
    before the key of the second. *)
Definition same_key (a b : grid_row) : Prop :=
  (x_round a == x_round b)%Q /\ (y_round a == y_round b)%Q.

Definition key_before (a b : grid_row) : Prop :=
  (x_round a < x_round b)%Q
  \/ ((x_round a == x_round b)%Q /\ (y_round a < y_round b)%Q).


(* ================================================================== *)
(** * Concrete inputs *)
(* ================================================================== *)

Module Examples.

(** A point at [(x, y, z)] with LAS class [cls] and [nret] returns. *)
Definition pt (x y z : Q) (cls nret : Z) : point :=
  mk_point x y z cls 1 nret 0 z 0 0 0 1 0 0 0.

(** The closed ring of the axis-parallel square with corner [(x0, y0)]
    and side [s]. *)
Definition square (x0 y0 s : Q) : list (Q * Q) :=
  [(x0, y0); (x0 + s, y0); (x0 + s, y0 + s); (x0, y0 + s); (x0, y0)]%Q.

Definition poly (id : Z) (ring : list (Q * Q)) : polygon_row :=
  mk_polygon_row id ring 0 4 0 0 0 0.

(** A clusterer that validates its input the way scikit-learn estimators
    do (an empty sample array is a [ValueError]) and marks every sample
    as noise. *)
Definition validating_noise_fit (min_cluster_size min_samples : Z)
    (xy : list (list Q)) : result (list Z) :=
  match xy with
  | [] => raise ValueError
  | _ => ret (map (fun _ => -1) xy)
  end.

(** One ground point, one single-return point, one vegetation point. *)
Definition three_points : list point :=
  [pt 0 0 0 2 3; pt 1 0 5 1 1; pt 2 0 7 1 2].

(** Five points of cluster 7 on and in the unit square, one stray point of
    cluster 3. *)
Definition six_points : list point :=
  [pt 0 0 0 7 2; pt 1 0 0 7 2; pt 1 1 0 7 2; pt 0 1 0 7 2;
   pt (1 # 2) (1 # 2) 0 7 2; pt 0 0 0 3 2].

(** A hull routine that answers with the first four input positions. *)
Definition hull4 (coords : list (Q * Q)) : result (list nat) :=
  ret [0%nat; 1%nat; 2%nat; 3%nat].

(** Two overlapping squares, and a point inside both. *)
Definition overlapping : list polygon_row :=
  [poly 0 (square 0 0 2); poly 1 (square 1 1 2)].

Definition shared_point : list point := [pt (3 # 2) (3 # 2) 5 1 1].

(** The polygon table [convex_hullify] leaves for [six_points]. *)
Definition six_points_tree_df : list polygon_row :=
  Eval vm_compute in
    tree_df (snd (convex_hullify hull4 [] six_points false)).

(** The first row of the join of [shared_point] with [overlapping]. *)
Definition shared_point_row : grouped_point :=
  Eval vm_compute in
    hd (mk_grouped_point 0 (pt 0 0 0 0 0) 0 (poly 0 []))
       (find_points_in_polygons convex_intersects shared_point overlapping).

(** A peak detector that reports the cell [(0, 0)]. *)
Definition one_peak (img : image) (min_dist : Z) : list (Z * Z) := [(0, 0)].

(** A peak detector that reports nothing. *)
Definition no_peak (img : image) (min_dist : Z) : list (Z * Z) := [].

(** A stand-in for k-means that labels every sample with the iteration
    budget it was constructed with. *)
Definition budget_fit (params : KMeans_params) (data : list (Q * Q * Q))
  : result (list Z) :=
  ret (map (fun _ => max_iter params) data).

(** PDAL estimators that give up. *)
Definition failing_estimate (points : list grouped_point)
  : result (list (Q * Q * Q * Q)) :=
  raise (LibraryError 0).

(** One joined point, in polygon 0. *)
Definition one_grouped_point : list grouped_point :=
  [mk_grouped_point 0 (pt (1 # 2) (1 # 2) 3 1 2) 0 (poly 0 (square 0 0 1))].



(** Two squares of area 1 that do not meet, a point inside the first and
    two points inside the second, and the table the join makes of
    them. *)
Definition small_squares : list polygon_row :=
  [poly 0 (square 0 0 1); poly 1 (square 2 2 1)].

Definition three_raw_points : list point :=
  [pt (1 # 2) (1 # 2) 5 1 2; pt (5 # 2) (5 # 2) 6 1 2;
   pt (11 # 4) (11 # 4) 7 1 2].

Definition joined_points : list grouped_point :=
  Eval vm_compute in
    find_points_in_polygons convex_intersects three_raw_points
                            small_squares.

(** Three points binned on a grid of size 2, the plan [interpolate_df]
    makes for them, and its first cell. *)
Definition grid_points : list (Q * Q * Q) :=
  [(0, 0, 1); (3, 1, 2); (31 # 10, 11 # 10, 3)]%Q.



(** A clusterer that puts every sample into cluster 0. *)
Definition single_cluster_fit (min_cluster_size min_samples : Z)
    (xy : list (list Q)) : result (list Z) :=
  ret (map (fun _ => 0) xy).

(** What [kmean_cluster] returns for [joined_points], started with one
    earlier seed coordinate. *)
Definition joined_run : list fused_point * list (Q * Q * Q) :=
  Eval vm_compute in
    match kmean_cluster no_peak budget_fit failing_estimate astype_str_float
            small_squares [(5, 5, 5)%Q] joined_points 1 0 1 with
    | inr r => r
    | inl _ => ([], [])
    end.

(** PDAL estimators that succeed, with a vertical normal everywhere. *)
Definition vertical_estimate (points : list grouped_point)
  : result (list (Q * Q * Q * Q)) :=
  ret (map (fun _ => (0, 0, 1, 0)%Q) points).

(** Ten points of polygon 1 (area 4); the first lies on the ground
    (height above ground 0), the others 3 above it. *)
Definition one_big_polygon : list polygon_row := [poly 1 (square 0 0 2)].

Definition ten_points : list grouped_point :=
  mk_grouped_point 0 (pt (1 # 2) (1 # 2) 0 1 2) 0 (poly 1 (square 0 0 2))
  :: map (fun i => mk_grouped_point i (pt (1 # 2) (1 # 2) 3 1 2) 0
                                    (poly 1 (square 0 0 2)))
         [1; 2; 3; 4; 5; 6; 7; 8; 9].

Definition six_points_row : polygon_row :=
  Eval vm_compute in
    hd (poly 0 []) six_points_tree_df.

End Examples.

Import Examples.

(* ================================================================== *)
(** * General lemmas *)
(* ================================================================== *)

Lemma bind_inr {A B : Type} (m : result A) (k : A -> result B) (b : B) :
  bind m k = inr b -> exists a, m = inr a /\ k a = inr b.
Proof.
  destruct m as [e | a]; simpl; intros H; [discriminate | eauto].
Qed.

Lemma zip_with_length {A B C : Type} (f : A -> B -> C) (l : list A) :
  forall m, length l = length m -> length (zip_with f l m) = length l.
Proof.
  induction l as [| a l IH]; intros [| b m]; simpl; intros H;
    try discriminate; auto.
Qed.

Lemma nth_error_zip_with {A B C : Type} (f : A -> B -> C) (l : list A) :
  forall m i a b,
    nth_error l i = Some a -> nth_error m i = Some b ->
    nth_error (zip_with f l m) i = Some (f a b).
Proof.
  induction l as [| x l IH]; intros [| y m] [| i] a b; simpl; intros Ha Hb;
    try discriminate.
  - congruence.
  - eauto.
Qed.

Lemma in_zip_with {A B C : Type} (f : A -> B -> C) (l : list A) :
  forall m c, In c (zip_with f l m) ->
    exists i a b,
      nth_error l i = Some a /\ nth_error m i = Some b /\ c = f a b.
Proof.
  induction l as [| x l IH]; intros [| y m] c; simpl; try tauto.
  intros [<- | H].
  - exists 0%nat, x, y. auto.
  - destruct (IH _ _ H) as (i & a & b & Ha & Hb & ->).
    exists (S i), a, b. auto.
Qed.

Lemma in_combine_nth {A B : Type} (l : list A) :
  forall (m : list B) a b, In (a, b) (combine l m) ->
    exists i, nth_error l i = Some a /\ nth_error m i = Some b.
Proof.
  induction l as [| x l IH]; intros [| y m] a b; simpl; try tauto.
  intros [H | H].
  - inversion H; subst. exists 0%nat. auto.
  - destruct (IH _ _ _ H) as (i & Ha & Hb). exists (S i). auto.
Qed.

Lemma map_fst_combine_eq {A B : Type} (l : list A) :
  forall m : list B, length l = length m -> map fst (combine l m) = l.
Proof.
  induction l as [| a l IH]; intros [| b m] H; simpl in *;
    try discriminate; [reflexivity |].
  rewrite IH; [reflexivity | lia].
Qed.

(* ================================================================== *)
(** * MaskBuilder *)
(* ================================================================== *)

Lemma masks_pointwise (raw_points : list point) :
  masks raw_points =
  map (fun p => negb ((Classification p =? 2) || (NumberOfReturns p <? 2)))
      raw_points.
Proof.
  unfold masks, np_vstack, np_sum_axis0, ground_mask, n_returns_mask. simpl.
  induction raw_points as [| p l IH]; simpl; [reflexivity |].
  rewrite IH. f_equal.
  destruct (Classification p =? 2), (NumberOfReturns p <? 2); reflexivity.
Qed.

(** C7.  For every raw point, the clustering mask is [False] at the point
    (the point is excluded) if and only if the point is classified as
    ground (class 2) or has fewer than 2 returns; it is [True] otherwise. *)
Theorem mask_excludes_exactly_ground_or_few_returns :
  forall (raw_points : list point) (i : nat) (p : point),
    nth_error raw_points i = Some p ->
    (nth_error (masks raw_points) i = Some false <->
       Classification p = 2 \/ NumberOfReturns p < 2)
    /\ (nth_error (masks raw_points) i = Some true <->
       ~ (Classification p = 2 \/ NumberOfReturns p < 2)).
Proof.
  intros raw i p Hp. rewrite masks_pointwise.
  rewrite nth_error_map, Hp. simpl.
  destruct (Z.eqb_spec (Classification p) 2) as [Hc | Hc];
    destruct (Z.ltb_spec (NumberOfReturns p) 2) as [Hr | Hr]; simpl;
    split; split; intros H; try discriminate; try reflexivity;
    try (left; assumption); try (right; assumption);
    try (exfalso; apply H; auto; fail);
    try (intros [? | ?]; lia);
    try (destruct H; lia).
Qed.

Lemma mask_witness :
  nth_error three_points 1 = Some (pt 1 0 5 1 1)
  /\ (nth_error (masks three_points) 1 = Some false <->
        Classification (pt 1 0 5 1 1) = 2
        \/ NumberOfReturns (pt 1 0 5 1 1) < 2).
Proof.
  split; [reflexivity |].
  apply (mask_excludes_exactly_ground_or_few_returns three_points 1).
  reflexivity.
Defined.

(* ================================================================== *)
(** * HullBuilder *)
(* ================================================================== *)

Lemma in_groupby {A : Type} (key : A -> Z) (df : list A) (k : Z) (g : list A) :
  In (k, g) (groupby key df) -> g = filter (fun r => key r =? k) df.
Proof.
  unfold groupby. rewrite in_map_iff. intros (k' & Heq & _).
  inversion Heq; subst. reflexivity.
Qed.

Lemma DataFrame_drop_not_inplace {A : Type} (df : list A) (labels : list nat) :
  fst (DataFrame_drop false df labels) = df.
Proof. reflexivity. Qed.

Lemma drop_group_frame (name : Z) (st : hull_state) :
  points_frame (drop_group name st) = points_frame st.
Proof.
  unfold drop_group.
  destruct (DataFrame_drop false (points_frame st) _) as [frame ret_val] eqn:E.
  simpl. change frame with (fst (frame, ret_val)). rewrite <- E.
  apply DataFrame_drop_not_inplace.
Qed.

Lemma drop_group_tree_df (name : Z) (st : hull_state) :
  tree_df (drop_group name st) = tree_df st.
Proof.
  unfold drop_group.
  destruct (DataFrame_drop false (points_frame st) _); reflexivity.
Qed.

Lemma drop_group_evaluated (name : Z) (st : hull_state) :
  evaluated (drop_group name st) = evaluated st.
Proof.
  unfold drop_group.
  destruct (DataFrame_drop false (points_frame st) _); reflexivity.
Qed.

Section HullProperties.

Variable ConvexHull : list (Q * Q) -> result (list nat).
Variable points : list point.
Variable kmean_pols : bool.

Local Abbreviation groups := (groupby Classification points).

Local Abbreviation emitted_from := (emitted_from ConvexHull points).
Local Abbreviation check_reached := (check_reached ConvexHull kmean_pols).
Local Abbreviation hull_inv := (hull_inv ConvexHull points kmean_pols).

Lemma hull_inv_log (name : Z) (c : check) (group : list point) (st : hull_state) :
  hull_inv st -> In (name, group) groups -> check_reached c group ->
  hull_inv (log_check name c st).
Proof.
  intros [Ht Hl] Hin Hc. split; simpl; [exact Ht |].
  intros n c' H. apply in_app_or in H. destruct H as [H | [H | []]].
  - eauto.
  - inversion H; subst. eauto.
Qed.

Lemma hull_inv_drop (name : Z) (st : hull_state) :
  hull_inv st -> hull_inv (drop_group name st).
Proof.
  unfold hull_inv.
  rewrite drop_group_tree_df, drop_group_evaluated. auto.
Qed.

Lemma hull_inv_append (r : polygon_row) (group : list point) (st : hull_state) :
  hull_inv st -> emitted_from r group -> hull_inv (append_row r st).
Proof.
  intros [Ht Hl] He. split; simpl; [| exact Hl].
  intros r' H. apply in_app_or in H. destruct H as [H | [<- | []]]; eauto.
Qed.

Lemma py_div_inr (n a d : Q) :
  py_div n a = inr d -> d = (n / a)%Q.
Proof.
  unfold py_div. destruct (Qeq_bool a 0); intros H; inversion H; reflexivity.
Qed.

Lemma Qle_bool_false_lt (a b : Q) : Qle_bool a b = false -> (b < a)%Q.
Proof.
  intros H. apply Qnot_le_lt. intros Hle.
  apply Qle_bool_iff in Hle. congruence.
Qed.

Lemma hullify_group_inv (st : hull_state) (ng : Z * list point) :
  In ng groups -> hull_inv st ->
  hull_inv (snd (hullify_group ConvexHull kmean_pols st ng)).
Proof.
  destruct ng as [name group]. intros Hin Hinv. unfold hullify_group.
  assert (H1 : hull_inv (log_check name CheckCount st))
    by (apply hull_inv_log with group; simpl; auto).
  destruct (Z.leb_spec (Z.of_nat (length group)) 3) as [Hn | Hn]; simpl.
  { apply hull_inv_drop, H1. }
  destruct (hull_polygon ConvexHull group) as [e | poly] eqn:Hhull; simpl.
  { exact H1. }
  assert (H2 : hull_inv (log_check name CheckDensity
                                   (log_check name CheckCount st)))
    by (apply hull_inv_log with group; simpl; auto; lia).
  destruct (py_div _ (area poly)) as [e | density] eqn:Hdiv; simpl.
  { exact H2. }
  apply py_div_inr in Hdiv. subst density.
  destruct (Qle_bool _ 3) eqn:Hd; simpl.
  { apply hull_inv_drop, H2. }
  apply Qle_bool_false_lt in Hd.
  assert (H3 : hull_inv (if kmean_pols
                         then log_check name CheckArea
                                (log_check name CheckDensity
                                   (log_check name CheckCount st))
                         else log_check name CheckDensity
                                (log_check name CheckCount st))).
  { destruct (bool_dec kmean_pols true) as [Hk | Hk].
    - replace (if kmean_pols then _ else _)
        with (log_check name CheckArea
                (log_check name CheckDensity (log_check name CheckCount st)))
        by (rewrite Hk; reflexivity).
      apply hull_inv_log with group; auto.
      simpl. split; [exact Hk |]. split; [lia |]. exists poly. auto.
    - apply not_true_is_false in Hk.
      replace (if kmean_pols then _ else _)
        with (log_check name CheckDensity (log_check name CheckCount st))
        by (rewrite Hk; reflexivity).
      exact H2. }
  destruct (kmean_pols && Qle_bool 800 (area poly)); simpl.
  { apply hull_inv_drop, H3. }
  apply hull_inv_append with group; [exact H3 |].
  unfold emitted_from; simpl.
  split; [exact Hin |]. split; [exact Hhull |]. split; [reflexivity |].
  split; [lia | exact Hd].
Qed.

Lemma hullify_loop_inv (l : list (Z * list point)) :
  forall st, incl l groups -> hull_inv st ->
    hull_inv (snd (hullify_loop ConvexHull kmean_pols st l)).
Proof.
  induction l as [| ng l IH]; intros st Hincl Hinv; simpl; [exact Hinv |].
  assert (Hg : hull_inv (snd (hullify_group ConvexHull kmean_pols st ng)))
    by (apply hullify_group_inv; auto; apply Hincl; left; reflexivity).
  destruct (hullify_group ConvexHull kmean_pols st ng) as [[e | u] st'];
    simpl in *; [exact Hg |].
  apply IH; auto. intros x Hx. apply Hincl. right. exact Hx.
Qed.

Lemma hullify_group_frame (st : hull_state) (ng : Z * list point) :
  points_frame (snd (hullify_group ConvexHull kmean_pols st ng))
  = points_frame st.
Proof.
  destruct ng as [name group]. unfold hullify_group.
  destruct (Z.of_nat (length group) <=? 3); cbn [snd andb].
  { rewrite drop_group_frame. reflexivity. }
  destruct (hull_polygon ConvexHull group); cbn [snd andb]; [reflexivity |].
  destruct (py_div _ _); cbn [snd andb]; [reflexivity |].
  destruct (Qle_bool _ 3); cbn [snd andb].
  { rewrite drop_group_frame. reflexivity. }
  destruct kmean_pols; cbn [snd andb]; [| reflexivity].
  destruct (Qle_bool 800 _); cbn [snd andb];
    [rewrite drop_group_frame |]; reflexivity.
Qed.

Lemma hullify_loop_frame (l : list (Z * list point)) :
  forall st,
    points_frame (snd (hullify_loop ConvexHull kmean_pols st l))
    = points_frame st.
Proof.
  induction l as [| ng l IH]; intros st; simpl; [reflexivity |].
  pose proof (hullify_group_frame st ng) as Hg.
  destruct (hullify_group ConvexHull kmean_pols st ng) as [[e | u] st'];
    simpl in *; [exact Hg |].
  rewrite IH. exact Hg.
Qed.

Lemma convex_hullify_inv (old_tree_df : list polygon_row) :
  hull_inv (snd (convex_hullify ConvexHull old_tree_df points kmean_pols)).
Proof.
  unfold convex_hullify.
  assert (Hempty : forall l : list polygon_row,
             drop_rows l (seq 0 (length l)) 0 = []).
  { intros l.
    assert (G : forall (l : list polygon_row) (labels : list nat) (i : nat),
               (forall j, (i <= j < i + length l)%nat -> In j labels) ->
               drop_rows l labels i = []).
    { clear. induction l as [| r l IH]; intros labels i H; simpl;
        [reflexivity |].
      assert (E : existsb (Nat.eqb i) labels = true).
      { apply existsb_exists. exists i. split.
        - apply H. simpl. lia.
        - apply Nat.eqb_refl. }
      rewrite E. apply IH. intros j Hj. apply H. simpl. lia. }
    apply G. intros j Hj. apply in_seq. lia. }
  unfold DataFrame_drop. rewrite Hempty.
  apply hullify_loop_inv.
  - apply incl_refl.
  - split; simpl; intros; contradiction.
Qed.

End HullProperties.

(** C6.  Every row that [convex_hullify] leaves in the polygon table was
    built from a group of the input with at least 4 points whose point
    count divided by the area of its hull polygon is strictly greater
    than 3.  A group of at most 3 points is evaluated neither against the
    density check nor against the area check, and a group whose density
    is at most 3 is not evaluated against the area check. *)
Theorem hull_builder_filter_invariant :
  forall (ConvexHull : list (Q * Q) -> result (list nat))
         (old_tree_df : list polygon_row) (points : list point)
         (kmean_pols : bool),
    (forall r,
        In r (tree_df (snd (convex_hullify ConvexHull old_tree_df points
                                           kmean_pols))) ->
        exists group,
          In (xy_clusterID r, group) (groupby Classification points)
          /\ hull_polygon ConvexHull group = inr (geometry r)
          /\ n_pts r = Z.of_nat (length group)
          /\ 4 <= n_pts r
          /\ (3 < inject_Z (n_pts r) / area (geometry r))%Q)
    /\ (forall name group,
          In (name, group) (groupby Classification points) ->
          (length group <= 3)%nat ->
          ~ In (name, CheckDensity)
               (evaluated (snd (convex_hullify ConvexHull old_tree_df points
                                               kmean_pols)))
          /\ ~ In (name, CheckArea)
                  (evaluated (snd (convex_hullify ConvexHull old_tree_df
                                                  points kmean_pols))))
    /\ (forall name group poly,
          In (name, group) (groupby Classification points) ->
          hull_polygon ConvexHull group = inr poly ->
          (inject_Z (Z.of_nat (length group)) / area poly <= 3)%Q ->
          ~ In (name, CheckArea)
               (evaluated (snd (convex_hullify ConvexHull old_tree_df points
                                               kmean_pols)))).
Proof.
  intros ConvexHull old_tree_df points kmean_pols.
  destruct (convex_hullify_inv ConvexHull points kmean_pols old_tree_df)
    as [Ht Hl].
  split; [| split].
  - intros r Hr. destruct (Ht r Hr) as (group & He). exists group. exact He.
  - intros name group Hin Hlen. split; intros Hc.
    + destruct (Hl _ _ Hc) as (group' & Hin' & Hreach).
      apply in_groupby in Hin, Hin'. subst. simpl in Hreach. lia.
    + destruct (Hl _ _ Hc) as (group' & Hin' & _ & Hreach & _).
      apply in_groupby in Hin, Hin'. subst. lia.
  - intros name group poly Hin Hhull Hd Hc.
    destruct (Hl _ _ Hc) as (group' & Hin' & _ & _ & poly' & Hhull' & Hd').
    apply in_groupby in Hin, Hin'. subst group'. subst group.
    rewrite Hhull in Hhull'. inversion Hhull'; subst poly'.
    apply (Qlt_irrefl 3). eapply Qlt_le_trans; eauto.
Qed.

Lemma hull_builder_witness :
  In six_points_row
     (tree_df (snd (convex_hullify hull4 [] six_points false)))
  /\ exists group,
       In (xy_clusterID six_points_row, group)
          (groupby Classification six_points)
       /\ hull_polygon hull4 group = inr (geometry six_points_row)
       /\ n_pts six_points_row = Z.of_nat (length group)
       /\ 4 <= n_pts six_points_row
       /\ (3 < inject_Z (n_pts six_points_row)
               / area (geometry six_points_row))%Q.
Proof.
  split.
  - vm_compute. left. reflexivity.
  - apply (proj1 (hull_builder_filter_invariant hull4 [] six_points false)).
    vm_compute. left. reflexivity.
Defined.

(** C10.  [convex_hullify] leaves the caller's points table as it found
    it, whether it returns or raises: the [drop] calls on rejected groups
    are not in place and their results are discarded. *)
Theorem convex_hullify_leaves_points_unchanged :
  forall (ConvexHull : list (Q * Q) -> result (list nat))
         (old_tree_df : list polygon_row) (points : list point)
         (kmean_pols : bool),
    points_frame (snd (convex_hullify ConvexHull old_tree_df points
                                      kmean_pols))
    = points.
Proof.
  intros ConvexHull old_tree_df points kmean_pols. unfold convex_hullify.
  destruct (DataFrame_drop true old_tree_df _) as [emptied ret_val].
  rewrite hullify_loop_frame. reflexivity.
Qed.

(* ================================================================== *)
(** * SpatialJoiner *)
(* ================================================================== *)

Lemma in_combine_seq {A : Type} (l : list A) :
  forall (s k : nat) (a : A),
    In (k, a) (combine (seq s (length l)) l) <->
    (s <= k)%nat /\ nth_error l (k - s) = Some a.
Proof.
  induction l as [| x l IH]; intros s k a; simpl.
  - split; [tauto |]. intros [_ H]. destruct (k - s)%nat; discriminate.
  - rewrite IH. split.
    + intros [H | [Hle H]].
      * inversion H; subst. rewrite Nat.sub_diag. simpl. auto.
      * split; [lia |].
        replace (k - s)%nat with (S (k - S s)) by lia. exact H.
    + intros [Hle H]. destruct (Nat.eq_dec s k) as [-> | Hne].
      * rewrite Nat.sub_diag in H. simpl in H. left. congruence.
      * right. split; [lia |].
        replace (k - s)%nat with (S (k - S s)) in H by lia. exact H.
Qed.

Lemma in_add_pid_from (l : list point) :
  forall (s : nat) (i : Z) (p : point),
    In (i, p) (combine (map Z.of_nat (seq s (length l))) l) <->
    exists k, i = Z.of_nat (s + k) /\ nth_error l k = Some p.
Proof.
  induction l as [| x l IH]; intros s i p; simpl.
  - split; [tauto |]. intros (k & _ & H). destruct k; discriminate.
  - rewrite IH. split.
    + intros [H | (k & -> & H)].
      * inversion H; subst. exists 0%nat. rewrite Nat.add_0_r. auto.
      * exists (S k). split; [f_equal; lia | exact H].
    + intros ([| k] & -> & H).
      * simpl in H. left. rewrite Nat.add_0_r. congruence.
      * right. exists k. split; [f_equal; lia | exact H].
Qed.

Lemma in_add_pid (l : list point) (i : Z) (p : point) :
  In (i, p) (former_preprocess_now_add_pid l) <->
  exists k, i = Z.of_nat k /\ nth_error l k = Some p.
Proof. apply (in_add_pid_from l 0). Qed.

Lemma in_drop_nan (l : list (Z * point * option (nat * polygon_row)))
    (g : grouped_point) :
  In g (drop_nan l) <->
  In (pid g, g_point g, Some (polygon_id g, g_polygon g)) l.
Proof.
  induction l as [| [[i p] [[j r] |]] l IH]; simpl.
  - tauto.
  - rewrite IH. split; intros [H | H]; auto; left.
    + subst g. reflexivity.
    + destruct g. simpl in H. congruence.
  - rewrite IH. split; [auto | intros [H | H]; [discriminate | exact H]].
Qed.

Section JoinProperties.

Variable intersects : Q * Q -> list (Q * Q) -> bool.

Lemma in_sjoin_left (points_df : list (Z * point))
    (polygon_df : list polygon_row) (i : Z) (p : point) (j : nat)
    (r : polygon_row) :
  In (i, p, Some (j, r)) (sjoin_left intersects points_df polygon_df) <->
  In (i, p) points_df
  /\ nth_error polygon_df j = Some r
  /\ intersects (X p, Y p) (geometry r) = true.
Proof.
  unfold sjoin_left. rewrite in_flat_map. split.
  - intros ([i' p'] & Hin & H).
    destruct (filter _ _) as [| m ms] eqn:Hf.
    + destruct H as [H | []]. discriminate.
    + apply in_map_iff in H. destruct H as (m' & Heq & Hm).
      inversion Heq; subst.
      rewrite <- Hf in Hm. apply filter_In in Hm. destruct Hm as [Hm Hi].
      apply in_combine_seq in Hm. destruct Hm as [_ Hm].
      rewrite Nat.sub_0_r in Hm. auto.
  - intros (Hin & Hr & Hi). exists (i, p). split; [exact Hin |].
    assert (Hm : In (j, r)
                   (filter (fun jr : nat * polygon_row =>
                              intersects (X p, Y p) (geometry (snd jr)))
                           (combine (seq 0 (length polygon_df)) polygon_df))).
    { apply filter_In. split; [| exact Hi].
      apply in_combine_seq. rewrite Nat.sub_0_r. split; [lia | exact Hr]. }
    destruct (filter _ _) as [| m ms]; [destruct Hm |].
    apply in_map_iff. exists (j, r). auto.
Qed.

(** The output of the join, row by row. *)
Lemma in_find_points_in_polygons (raw_points : list point)
    (polygon_df : list polygon_row) (g : grouped_point) :
  In g (find_points_in_polygons intersects raw_points polygon_df) <->
  (exists k, pid g = Z.of_nat k
             /\ nth_error (cluster_points raw_points) k = Some (g_point g))
  /\ nth_error polygon_df (polygon_id g) = Some (g_polygon g)
  /\ intersects (X (g_point g), Y (g_point g)) (geometry (g_polygon g)) = true
  /\ 0 <= g_xy_clusterID g.
Proof.
  unfold find_points_in_polygons.
  rewrite filter_In, in_drop_nan, in_sjoin_left, in_add_pid, Z.leb_le.
  tauto.
Qed.

End JoinProperties.

Lemma drop_nan_app (l1 l2 : list (Z * point * option (nat * polygon_row))) :
  drop_nan (l1 ++ l2) = drop_nan l1 ++ drop_nan l2.
Proof.
  induction l1 as [| [[i p] [[j r] |]] l1 IH]; simpl; [reflexivity | |];
    rewrite IH; reflexivity.
Qed.

Lemma drop_nan_matches (i : Z) (p : point) (ms : list (nat * polygon_row)) :
  drop_nan (map (fun m => (i, p, Some m)) ms)
  = map (fun m => mk_grouped_point i p (fst m) (snd m)) ms.
Proof.
  induction ms as [| [j r] ms IH]; simpl; [reflexivity |].
  rewrite IH. reflexivity.
Qed.

Lemma NoDup_map_filter {A B : Type} (f : A -> B) (P : A -> bool)
    (l : list A) :
  NoDup (map f l) -> NoDup (map f (filter P l)).
Proof.
  induction l as [| a l IH]; simpl; intros H; [constructor |].
  inversion H as [| ? ? Hnotin Hnd]; subst.
  destruct (P a); simpl; [| auto].
  constructor; [| auto].
  intros Hin. apply Hnotin. apply in_map_iff in Hin.
  destruct Hin as (x & Hx & Hin). apply filter_In in Hin.
  rewrite <- Hx. apply in_map. tauto.
Qed.

Lemma NoDup_map_pair {A B : Type} (a : A) (l : list B) :
  NoDup l -> NoDup (map (pair a) l).
Proof.
  induction 1 as [| b l Hnotin Hnd IH]; simpl; constructor; [| exact IH].
  intros Hin. apply in_map_iff in Hin. destruct Hin as (x & Hx & Hin).
  inversion Hx; subst. contradiction.
Qed.

Lemma sjoin_left_cons (intersects : Q * Q -> list (Q * Q) -> bool)
    (i : Z) (p : point) (l : list (Z * point))
    (polygon_df : list polygon_row) :
  sjoin_left intersects ((i, p) :: l) polygon_df
  = match filter (fun jr : nat * polygon_row =>
                    intersects (X p, Y p) (geometry (snd jr)))
                 (combine (seq 0 (length polygon_df)) polygon_df) with
    | [] => [(i, p, None)]
    | m :: ms => map (fun m => (i, p, Some m)) (m :: ms)
    end
    ++ sjoin_left intersects l polygon_df.
Proof. reflexivity. Qed.

Lemma join_pairs_NoDup (intersects : Q * Q -> list (Q * Q) -> bool)
    (polygon_df : list polygon_row) (l : list (Z * point)) :
  NoDup (map fst l) ->
  NoDup (map (fun g => (pid g, polygon_id g))
             (filter (fun g => 0 <=? g_xy_clusterID g)
                     (drop_nan (sjoin_left intersects l polygon_df)))).
Proof.
  induction l as [| [i p] l IH]; intros Hnd; [constructor |].
  inversion Hnd as [| ? ? Hnotin Hnd']; subst.
  rewrite sjoin_left_cons, drop_nan_app, filter_app, map_app.
  apply NoDup_app.
  - set (ms := filter (fun jr : nat * polygon_row =>
                         intersects (X p, Y p) (geometry (snd jr)))
                      (combine (seq 0 (length polygon_df)) polygon_df)).
    assert (Hms : NoDup (map fst ms)).
    { apply NoDup_map_filter.
      rewrite map_fst_combine_eq by apply length_seq. apply seq_NoDup. }
    destruct ms as [| m ms']; [constructor |].
    rewrite drop_nan_matches, filter_map_swap, map_map. simpl pid.
    simpl polygon_id.
    rewrite <- (map_map fst (pair i)).
    apply NoDup_map_pair, NoDup_map_filter. exact Hms.
  - apply IH. exact Hnd'.
  - intros a Ha Ha'.
    apply in_map_iff in Ha. destruct Ha as (g & <- & Hg).
    apply in_map_iff in Ha'. destruct Ha' as (g' & Hk & Hg').
    apply filter_In in Hg, Hg'. destruct Hg as [Hg _], Hg' as [Hg' _].
    apply in_drop_nan in Hg, Hg'.
    apply in_sjoin_left in Hg'. destruct Hg' as (Hin & _).
    assert (Hi : pid g = i).
    { destruct (filter _ (combine _ _)) as [| m ms'].
      - simpl in Hg. destruct Hg as [Hg | []]. inversion Hg.
      - apply in_map_iff in Hg. destruct Hg as (m' & Hm & _).
        inversion Hm. reflexivity. }
    apply Hnotin. inversion Hk as [[Hpid Hpol]].
    rewrite <- Hi, <- Hpid. apply (in_map fst) in Hin. exact Hin.
Qed.

Lemma add_pid_NoDup (points : list point) :
  NoDup (map fst (former_preprocess_now_add_pid points)).
Proof.
  unfold former_preprocess_now_add_pid.
  rewrite map_fst_combine_eq by (rewrite length_map, length_seq; reflexivity).
  generalize (seq_NoDup (length points) 0).
  generalize (seq 0 (length points)).
  intros l. induction 1 as [| n l Hn Hl IH]; simpl; constructor; [| exact IH].
  intros Hin. apply in_map_iff in Hin. destruct Hin as (m & Hm & Hin).
  apply Nat2Z.inj in Hm. subst. contradiction.
Qed.

(** In a table that lists no (point id, polygon id) pair twice, the rows
    with the pair of a given row are that row alone. *)
Lemma filter_unique_pair (l : list grouped_point) (g : grouped_point) :
  NoDup (map (fun g => (pid g, polygon_id g)) l) ->
  In g l ->
  filter (fun g' => (pid g' =? pid g) && (polygon_id g' =? polygon_id g)%nat)
         l
  = [g].
Proof.
  induction l as [| a l IH]; intros Hnd Hin; [destruct Hin |].
  inversion Hnd as [| ? ? Hnotin Hnd']; subst. simpl.
  destruct ((pid a =? pid g) && (polygon_id a =? polygon_id g)%nat) eqn:E.
  - apply andb_true_iff in E. destruct E as [E1 E2].
    apply Z.eqb_eq in E1. apply Nat.eqb_eq in E2.
    destruct Hin as [-> | Hin].
    + f_equal.
      assert (Hnone : forall t,
                 ~ In (pid g, polygon_id g)
                      (map (fun g => (pid g, polygon_id g)) t) ->
                 filter (fun g' => (pid g' =? pid g)
                                   && (polygon_id g' =? polygon_id g)%nat) t
                 = []).
      { induction t as [| b t IHt]; intros Hb; [reflexivity |]. simpl.
        destruct ((pid b =? pid g) && (polygon_id b =? polygon_id g)%nat)
          eqn:Eb.
        - apply andb_true_iff in Eb. destruct Eb as [Eb1 Eb2].
          apply Z.eqb_eq in Eb1. apply Nat.eqb_eq in Eb2.
          exfalso. apply Hb. left. simpl. congruence.
        - apply IHt. intros H. apply Hb. right. exact H. }
      apply Hnone. exact Hnotin.
    + exfalso. apply Hnotin. rewrite E1, E2.
      apply (in_map (fun g => (pid g, polygon_id g))). exact Hin.
  - destruct Hin as [-> | Hin].
    + rewrite Z.eqb_refl, Nat.eqb_refl in E. discriminate.
    + apply IH; assumption.
Qed.

Lemma cluster_points_not_ground (raw_points : list point) (k : nat) (p : point) :
  nth_error (cluster_points raw_points) k = Some p -> Classification p <> 2.
Proof.
  intros H. apply nth_error_In in H. revert H. unfold cluster_points, ground_mask.
  induction raw_points as [| q l IH]; simpl; [tauto |].
  destruct (Z.eqb_spec (Classification q) 2) as [Hq | Hq]; simpl; auto.
  intros [<- | H]; auto.
Qed.

(** C8.  Every row of the join carries the position of a polygon of
    [polygon_df] that the point's [(X, Y)] meets, the point is a
    non-ground raw point, and the density-cluster id of the row is not
    negative; a point that meets no polygon has no row at all (the join
    itself never raises). *)
Theorem spatial_joiner_rows_are_contained :
  forall (intersects : Q * Q -> list (Q * Q) -> bool)
         (raw_points : list point) (polygon_df : list polygon_row),
    (forall g,
        In g (find_points_in_polygons intersects raw_points polygon_df) ->
        nth_error polygon_df (polygon_id g) = Some (g_polygon g)
        /\ intersects (X (g_point g), Y (g_point g))
                      (geometry (g_polygon g)) = true
        /\ 0 <= g_xy_clusterID g
        /\ Classification (g_point g) <> 2
        /\ exists k, pid g = Z.of_nat k
                     /\ nth_error (cluster_points raw_points) k
                        = Some (g_point g))
    /\ (forall k p,
          nth_error (cluster_points raw_points) k = Some p ->
          (forall r, In r polygon_df ->
                     intersects (X p, Y p) (geometry r) = false) ->
          forall g,
            In g (find_points_in_polygons intersects raw_points polygon_df) ->
            pid g <> Z.of_nat k).
Proof.
  intros intersects raw_points polygon_df. split.
  - intros g Hg. apply in_find_points_in_polygons in Hg.
    destruct Hg as ((k & Hk & Hp) & Hr & Hi & Hn).
    repeat (split; [assumption |]). split.
    + eapply cluster_points_not_ground; eauto.
    + exists k. auto.
  - intros k p Hp Hnone g Hg Hpid. apply in_find_points_in_polygons in Hg.
    destruct Hg as ((k' & Hk & Hp') & Hr & Hi & _).
    rewrite Hpid in Hk. apply Nat2Z.inj in Hk. subst k'.
    rewrite Hp in Hp'. inversion Hp'; subst p.
    apply nth_error_In in Hr. rewrite (Hnone _ Hr) in Hi. discriminate.
Qed.

Lemma spatial_joiner_witness :
  In shared_point_row
     (find_points_in_polygons convex_intersects shared_point overlapping)
  /\ nth_error overlapping (polygon_id shared_point_row)
     = Some (g_polygon shared_point_row)
  /\ convex_intersects (X (g_point shared_point_row),
                        Y (g_point shared_point_row))
                       (geometry (g_polygon shared_point_row)) = true
  /\ 0 <= g_xy_clusterID shared_point_row.
Proof.
  assert (H : In shared_point_row
                 (find_points_in_polygons convex_intersects shared_point
                                          overlapping))
    by (vm_compute; left; reflexivity).
  split; [exact H |].
  destruct (proj1 (spatial_joiner_rows_are_contained
                     convex_intersects shared_point overlapping)
                  shared_point_row H) as (H1 & H2 & H3 & _).
  auto.
Defined.

(** C9, as stated, fails: a point inside two overlapping polygons leaves
    the join twice, once with each polygon id. *)
Lemma spatial_joiner_point_in_two_polygons :
  map (fun g => (pid g, polygon_id g))
      (find_points_in_polygons convex_intersects shared_point overlapping)
  = [(0, 0%nat); (0, 1%nat)].
Proof. vm_compute. reflexivity. Qed.

(** C9, amended.  A point-id appears in the join exactly once for every
    polygon of non-negative cluster id that its point meets: there is a
    row with that point-id and that polygon id, and it is the only one.
    Two rows with the same point-id hold the same point, and they carry
    the same polygon id whenever at most one polygon of [polygon_df]
    meets that point. *)
Theorem spatial_joiner_one_row_per_containing_polygon :
  forall (intersects : Q * Q -> list (Q * Q) -> bool)
         (raw_points : list point) (polygon_df : list polygon_row),
    (forall k p j r,
        nth_error (cluster_points raw_points) k = Some p ->
        nth_error polygon_df j = Some r ->
        intersects (X p, Y p) (geometry r) = true ->
        0 <= xy_clusterID r ->
        exists g,
          In g (find_points_in_polygons intersects raw_points polygon_df)
          /\ pid g = Z.of_nat k /\ g_point g = p
          /\ polygon_id g = j /\ g_polygon g = r
          /\ filter (fun g' => (pid g' =? Z.of_nat k)
                               && (polygon_id g' =? j)%nat)
                    (find_points_in_polygons intersects raw_points
                                             polygon_df)
             = [g])
    /\ (forall g1 g2,
          In g1 (find_points_in_polygons intersects raw_points polygon_df) ->
          In g2 (find_points_in_polygons intersects raw_points polygon_df) ->
          pid g1 = pid g2 ->
          g_point g1 = g_point g2
          /\ ((forall j1 j2 r1 r2,
                  nth_error polygon_df j1 = Some r1 ->
                  nth_error polygon_df j2 = Some r2 ->
                  intersects (X (g_point g1), Y (g_point g1)) (geometry r1)
                  = true ->
                  intersects (X (g_point g1), Y (g_point g1)) (geometry r2)
                  = true ->
                  j1 = j2) ->
              polygon_id g1 = polygon_id g2)).
Proof.
  intros intersects raw_points polygon_df. split.
  - intros k p j r Hp Hr Hi Hn.
    set (g := mk_grouped_point (Z.of_nat k) p j r).
    assert (Hg : In g (find_points_in_polygons intersects raw_points
                                               polygon_df)).
    { apply in_find_points_in_polygons. simpl.
      split; [exists k; auto |]. auto. }
    exists g. split; [exact Hg |]. repeat (split; [reflexivity |]).
    apply (filter_unique_pair _ g); [| exact Hg].
    unfold find_points_in_polygons.
    apply join_pairs_NoDup, add_pid_NoDup.
  - intros g1 g2 H1 H2 Hpid.
    apply in_find_points_in_polygons in H1, H2.
    destruct H1 as ((k1 & Hk1 & Hp1) & Hr1 & Hi1 & _).
    destruct H2 as ((k2 & Hk2 & Hp2) & Hr2 & Hi2 & _).
    assert (k1 = k2) by (apply Nat2Z.inj; congruence). subst k2.
    assert (Hpt : g_point g1 = g_point g2) by congruence.
    split; [exact Hpt |].
    intros Hone. rewrite <- Hpt in Hi2. eapply Hone; eauto.
Qed.

Lemma spatial_joiner_one_row_witness :
  nth_error (cluster_points shared_point) 0
  = Some (pt (3 # 2) (3 # 2) 5 1 1)
  /\ nth_error overlapping 1 = Some (poly 1 (square 1 1 2))
  /\ exists g,
       In g (find_points_in_polygons convex_intersects shared_point
                                     overlapping)
       /\ pid g = 0 /\ g_point g = pt (3 # 2) (3 # 2) 5 1 1
       /\ polygon_id g = 1%nat /\ g_polygon g = poly 1 (square 1 1 2)
       /\ filter (fun g' => (pid g' =? 0) && (polygon_id g' =? 1)%nat)
                 (find_points_in_polygons convex_intersects shared_point
                                          overlapping)
          = [g].
Proof.
  split; [reflexivity |]. split; [reflexivity |].
  apply (proj1 (spatial_joiner_one_row_per_containing_polygon
                  convex_intersects shared_point overlapping)
               0%nat (pt (3 # 2) (3 # 2) 5 1 1) 1%nat
               (poly 1 (square 1 1 2)));
    try reflexivity; vm_compute; discriminate.
Defined.

(* ================================================================== *)
(** * DensityClusterer *)
(* ================================================================== *)

(** C4, as stated, fails: on an empty point set a clusterer that rejects
    an empty sample array makes the stage raise. *)
Lemma density_clusterer_raises_on_empty_input :
  hdbscan_on_points validating_noise_fit [] 5 5 false = raise ValueError.
Proof. reflexivity. Qed.

Lemma all_noise_filtered (pts : list point) :
  forall labels, Forall (fun l => l = -1) labels ->
    filter (fun p => 0 <=? Classification p)
           (zip_with set_Classification pts labels) = [].
Proof.
  induction pts as [| p pts IH]; intros [| a labels] H; simpl;
    try reflexivity.
  inversion H; subst. simpl. apply IH. assumption.
Qed.

(** C4, amended.  [hdbscan_on_points] has no handler of its own: whatever
    the clusterer raises, the stage raises.  When the clusterer returns
    one label per masked point the stage does not raise and keeps exactly
    the masked points whose label is not negative, so an all-noise
    labelling leaves an empty cluster table. *)
Theorem density_clusterer_propagates_and_filters :
  forall (fit : Z -> Z -> list (list Q) -> result (list Z))
         (raw_points : list point) (min_cluster_size min_samples : Z)
         (xyz : bool),
    (forall e,
        fit min_cluster_size min_samples
            (clustering_columns xyz
               (boolean_index raw_points (masks raw_points))) = inl e ->
        hdbscan_on_points fit raw_points min_cluster_size min_samples xyz
        = inl e)
    /\ (forall labels,
          fit min_cluster_size min_samples
              (clustering_columns xyz
                 (boolean_index raw_points (masks raw_points)))
          = inr labels ->
          length labels
          = length (boolean_index raw_points (masks raw_points)) ->
          hdbscan_on_points fit raw_points min_cluster_size min_samples xyz
          = inr (filter (fun p => 0 <=? Classification p)
                        (zip_with set_Classification
                           (boolean_index raw_points (masks raw_points))
                           labels))
          /\ (Forall (fun l => l = -1) labels ->
              hdbscan_on_points fit raw_points min_cluster_size min_samples
                                xyz
              = inr [])).
Proof.
  intros fit raw mcs ms xyz. unfold hdbscan_on_points. split.
  - intros e He. rewrite He. reflexivity.
  - intros labels Hl Hlen. rewrite Hl. simpl. unfold with_labels.
    rewrite Hlen, Nat.eqb_refl. simpl. split; [reflexivity |].
    intros Hall. rewrite all_noise_filtered; auto.
Qed.

Lemma density_clusterer_witness :
  validating_noise_fit 5 5
    (clustering_columns false (boolean_index three_points (masks three_points)))
  = inr [-1]
  /\ hdbscan_on_points validating_noise_fit three_points 5 5 false = inr [].
Proof.
  split; [reflexivity |].
  apply (proj2 (density_clusterer_propagates_and_filters
                  validating_noise_fit three_points 5 5 false) [-1]);
    try reflexivity.
  repeat constructor.
Defined.

(* ================================================================== *)
(** * SeededClusterer: the k-means call *)
(* ================================================================== *)

Lemma call_by_keyword_as_written {A : Type} (body : result A) :
  call_by_keyword find_n_clusters_peaks_parameters
                  find_n_clusters_peaks_keywords body
  = raise TypeError.
Proof. reflexivity. Qed.

Lemma call_by_keyword_declared {A : Type} (body : result A) :
  call_by_keyword find_n_clusters_peaks_parameters
    ["cluster_data"%string; "min_dist"%string; "round_val"%string] body
  = body.
Proof. reflexivity. Qed.

(** C2, on the code.  [kmean_cluster_group] never gets as far as its
    k-means step: whatever the group, the peak detector and the k-means
    routine, the call of [find_n_clusters_peaks] raises [TypeError], so
    no labels are returned and the outcome does not depend on the
    k-means routine: neither a seeded run of one iteration nor an
    unseeded run of up to 100 iterations is made. *)
Theorem kmean_cluster_group_never_reaches_kmeans :
  forall (peak_local_max : image -> Z -> list (Z * Z))
         (KMeans_fit KMeans_fit' :
            KMeans_params -> list (Q * Q * Q) -> result (list Z))
         (self_tree_coords : list (Q * Q * Q)) (group : list grouped_point)
         (min_dist : Z) (relative_threshold round_val : Q),
    kmean_cluster_group peak_local_max KMeans_fit self_tree_coords group
                        min_dist relative_threshold round_val
    = raise TypeError
    /\ (forall labels coords,
          kmean_cluster_group peak_local_max KMeans_fit self_tree_coords
                              group min_dist relative_threshold round_val
          <> inr (labels, coords))
    /\ kmean_cluster_group peak_local_max KMeans_fit self_tree_coords group
                           min_dist relative_threshold round_val
       = kmean_cluster_group peak_local_max KMeans_fit' self_tree_coords
                             group min_dist relative_threshold round_val.
Proof.
  intros plm fit fit' tc group md rt rv.
  assert (H : forall f,
             kmean_cluster_group plm f tc group md rt rv = raise TypeError).
  { intros f. unfold kmean_cluster_group.
    rewrite call_by_keyword_as_written. reflexivity. }
  split; [apply H |]. split.
  - intros labels coords E. rewrite H in E. discriminate.
  - rewrite !H. reflexivity.
Qed.

(** The lines after the call, were it to bind: with the keyword
    [relative_threshold] left out, seed coordinates are the initial
    centroids of a run with an iteration budget of 100, and without
    seeds the default initialisation runs with a budget of 1. *)
Lemma kmean_cluster_group_call_budget
    (peak_local_max : image -> Z -> list (Z * Z))
    (KMeans_fit : KMeans_params -> list (Q * Q * Q) -> result (list Z))
    (self_tree_coords : list (Q * Q * Q)) (group : list grouped_point)
    (min_dist : Z) (relative_threshold round_val : Q)
    (n : Z) (coordinates : list (Q * Q * Q)) :
  find_n_clusters_peaks peak_local_max
    (map (fun g => (X (g_point g), Y (g_point g), Zc (g_point g))) group)
    round_val min_dist
  = inr (n, coordinates) ->
  kmean_cluster_group_call peak_local_max KMeans_fit
    ["cluster_data"%string; "min_dist"%string; "round_val"%string]
    self_tree_coords group min_dist relative_threshold round_val
  = match coordinates with
    | _ :: _ =>
        bind (KMeans_fit (mk_KMeans n 100 (Some coordinates))
                (map (fun g => (X (g_point g), Y (g_point g),
                                Zc (g_point g))) group))
             (fun labels => ret (labels, self_tree_coords ++ coordinates))
    | [] =>
        bind (KMeans_fit (mk_KMeans n 1 None)
                (map (fun g => (X (g_point g), Y (g_point g),
                                Zc (g_point g))) group))
             (fun labels => ret (labels, self_tree_coords))
    end.
Proof.
  intros H. unfold kmean_cluster_group_call.
  rewrite call_by_keyword_declared, H. simpl.
  destruct coordinates; reflexivity.
Qed.

(** Ten points in a polygon of area 4, which qualifies for splitting:
    the call of [find_n_clusters_peaks] stops [kmean_cluster_group], and
    with it [kmean_cluster]. *)
Lemma kmean_cluster_raises_on_qualifying_polygon :
  tree_area one_big_polygon 1 = inr (8 # 2)
  /\ splittable 1 (8 # 2) ten_points = true
  /\ kmean_cluster_group one_peak budget_fit [] ten_points 1 0 1
     = raise TypeError
  /\ kmean_cluster one_peak budget_fit vertical_estimate astype_str_float
       one_big_polygon [] ten_points 1 0 1
     = raise TypeError.
Proof. repeat split; vm_compute; reflexivity. Qed.

(* ================================================================== *)
(** * LabelFuser *)
(* ================================================================== *)

Lemma index_of_from (k : string) (u : list string) :
  forall i, index_of k u i = option_map (Nat.add i) (index_of k u 0).
Proof.
  induction u as [| x u IH]; intros i; simpl; [reflexivity |].
  destruct (String.eqb k x).
  - simpl. f_equal. lia.
  - rewrite IH, (IH 1%nat). destruct (index_of k u 0); simpl; f_equal; lia.
Qed.

Lemma index_of_nth (k : string) (u : list string) :
  forall n, index_of k u 0 = Some n -> nth_error u n = Some k.
Proof.
  induction u as [| x u IH]; intros n; simpl; [discriminate |].
  destruct (String.eqb_spec k x) as [-> | Hne].
  - intros H. inversion H. reflexivity.
  - rewrite index_of_from. destruct (index_of k u 0) as [m |]; simpl;
      [| discriminate].
    intros H. inversion H. simpl. auto.
Qed.

Lemma index_of_app (k : string) (u w : list string) (n : nat) :
  index_of k u 0 = Some n -> index_of k (u ++ w) 0 = Some n.
Proof.
  revert n. induction u as [| x u IH]; intros n; simpl; [discriminate |].
  destruct (String.eqb k x); [auto |].
  rewrite index_of_from, (index_of_from k (u ++ w)).
  destruct (index_of k u 0) as [m |]; simpl; [| discriminate].
  intros H. rewrite (IH m eq_refl). exact H.
Qed.

Lemma index_of_new (k : string) (u : list string) :
  index_of k u 0 = None -> index_of k (u ++ [k]) 0 = Some (length u).
Proof.
  induction u as [| x u IH]; simpl.
  - rewrite String.eqb_refl. reflexivity.
  - destruct (String.eqb k x); [discriminate |].
    rewrite index_of_from, (index_of_from k (u ++ [k])).
    destruct (index_of k u 0); simpl; [discriminate |].
    intros _. rewrite IH; reflexivity.
Qed.

Lemma factorize_uniques_extends (values : list string) :
  forall u, exists w, factorize_uniques u values = u ++ w.
Proof.
  induction values as [| k vs IH]; intros u; simpl.
  - exists []. rewrite app_nil_r. reflexivity.
  - destruct (index_of k u 0); [apply IH |].
    destruct (IH (u ++ [k])) as (w & ->). exists (k :: w).
    rewrite <- app_assoc. reflexivity.
Qed.

Lemma index_of_factorize_uniques (k : string) (values u : list string)
    (n : nat) :
  index_of k u 0 = Some n ->
  index_of k (factorize_uniques u values) 0 = Some n.
Proof.
  intros H. destruct (factorize_uniques_extends values u) as (w & ->).
  apply index_of_app. exact H.
Qed.

(** The codes are the ranks of the values in the list of distinct values
    taken in order of first appearance, and every value has one. *)
Lemma factorize_from_codes (values : list string) :
  forall u,
    factorize_from u values
    = map (code_of (factorize_uniques u values)) values
    /\ Forall (fun k => exists n,
                 index_of k (factorize_uniques u values) 0 = Some n) values.
Proof.
  induction values as [| k vs IH]; intros u; simpl; [auto |].
  destruct (index_of k u 0) as [n |] eqn:Hk.
  - destruct (IH u) as [Hc Hall]. split.
    + unfold code_of at 1.
      rewrite (index_of_factorize_uniques k vs u n Hk). f_equal. exact Hc.
    + constructor; [| exact Hall]. exists n.
      apply index_of_factorize_uniques. exact Hk.
  - destruct (IH (u ++ [k])) as [Hc Hall].
    pose proof (index_of_factorize_uniques k vs (u ++ [k]) (length u)
                  (index_of_new k u Hk)) as Hn.
    split.
    + unfold code_of at 1. rewrite Hn. f_equal. exact Hc.
    + constructor; [| exact Hall]. exists (length u). exact Hn.
Qed.

Lemma factorize_from_app (values more : list string) :
  forall u,
    factorize_from u (values ++ more)
    = factorize_from u values
      ++ factorize_from (factorize_uniques u values) more.
Proof.
  induction values as [| k vs IH]; intros u; simpl; [reflexivity |].
  destruct (index_of k u 0); simpl; rewrite IH; reflexivity.
Qed.

Lemma factorize_from_length (values : list string) :
  forall u, length (factorize_from u values) = length values.
Proof.
  induction values as [| k vs IH]; intros u; simpl; [reflexivity |].
  destruct (index_of k u 0); simpl; rewrite IH; reflexivity.
Qed.

Lemma factorize_from_nonneg (values : list string) :
  forall u, Forall (fun c => 0 <= c) (factorize_from u values).
Proof.
  induction values as [| k vs IH]; intros u; simpl; [constructor |].
  destruct (index_of k u 0); constructor; auto; lia.
Qed.

Lemma code_of_inj (u : list string) (k1 k2 : string) (n1 n2 : nat) :
  index_of k1 u 0 = Some n1 -> index_of k2 u 0 = Some n2 ->
  (code_of u k1 = code_of u k2 <-> k1 = k2).
Proof.
  intros H1 H2. unfold code_of. rewrite H1, H2. split.
  - intros H. apply Nat2Z.inj in H. subst n2.
    apply index_of_nth in H1, H2. congruence.
  - intros ->. congruence.
Qed.

Lemma zip_with_map_same {A B C D : Type} (f : B -> C -> D) (g : A -> B)
    (h : A -> C) (l : list A) :
  zip_with f (map g l) (map h l) = map (fun a => f (g a) (h a)) l.
Proof.
  induction l as [| a l IH]; simpl; [reflexivity |]. rewrite IH. reflexivity.
Qed.

Lemma nth_error_combine {A B : Type} (l : list A) :
  forall (m : list B) i a b,
    nth_error l i = Some a -> nth_error m i = Some b ->
    nth_error (combine l m) i = Some (a, b).
Proof.
  induction l as [| x l IH]; intros [| y m] [| i] a b; simpl; intros Ha Hb;
    try discriminate.
  - congruence.
  - eauto.
Qed.

(** The composite key of a row of [(sub-cluster label, density-cluster
    label)]. *)
Lemma fuse_labels_unfold (astype_str : Z -> string) (rows : list (Z * Z)) :
  fuse_labels astype_str rows
  = combine (map (fun r => fst r * 10) rows)
            (pd_factorize
               (map (fun r => combi_id astype_str (fst r * 10) (snd r)) rows)).
Proof.
  unfold fuse_labels. f_equal. f_equal.
  rewrite <- (map_map (fun r : Z * Z => fst r * 10) (fun v => v)).
  rewrite map_id.
  apply (zip_with_map_same (combi_id astype_str)
           (fun r : Z * Z => fst r * 10) snd rows).
Qed.

Lemma combine_app_eq {A B : Type} (l1 : list A) :
  forall (l2 : list A) (m1 m2 : list B),
    length l1 = length m1 ->
    combine (l1 ++ l2) (m1 ++ m2) = combine l1 m1 ++ combine l2 m2.
Proof.
  induction l1 as [| a l1 IH]; intros l2 [| b m1] m2 H; simpl in *;
    try discriminate; [reflexivity |].
  rewrite IH; [reflexivity | lia].
Qed.

Lemma firstn_app_exact {A : Type} (l r : list A) (n : nat) :
  length l = n -> firstn n (l ++ r) = l.
Proof.
  intros <-. induction l as [| a l IH]; simpl.
  - destruct r; reflexivity.
  - rewrite IH. reflexivity.
Qed.

(** The final label of the row at position [i]: the rank of its composite
    key among the distinct keys of the table. *)
Lemma fuse_labels_nth (astype_str : Z -> string) (rows : list (Z * Z))
    (i : nat) (a : Z * Z) :
  nth_error rows i = Some a ->
  nth_error (fuse_labels astype_str rows) i
  = Some (fst a * 10,
          code_of (factorize_uniques []
                     (map (fun r => combi_id astype_str (fst r * 10) (snd r))
                          rows))
                  (combi_id astype_str (fst a * 10) (snd a)))
  /\ exists n,
       index_of (combi_id astype_str (fst a * 10) (snd a))
                (factorize_uniques []
                   (map (fun r => combi_id astype_str (fst r * 10) (snd r))
                        rows)) 0
       = Some n.
Proof.
  intros Ha. rewrite fuse_labels_unfold. unfold pd_factorize.
  destruct (factorize_from_codes
              (map (fun r => combi_id astype_str (fst r * 10) (snd r)) rows)
              []) as [Hcodes Hall].
  rewrite Hcodes. split.
  - apply nth_error_combine.
    + rewrite nth_error_map, Ha. reflexivity.
    + rewrite !nth_error_map, Ha. reflexivity.
  - rewrite Forall_forall in Hall. apply Hall.
    apply (in_map (fun r => combi_id astype_str (fst r * 10) (snd r))).
    eapply nth_error_In; eauto.
Qed.

Lemma factorize_uniques_app (vs ws : list string) :
  forall u,
    factorize_uniques u (vs ++ ws)
    = factorize_uniques (factorize_uniques u vs) ws.
Proof.
  induction vs as [| k vs IH]; intros u; simpl; [reflexivity |].
  destruct (index_of k u 0); apply IH.
Qed.

Lemma nth_error_firstn_In {A : Type} (l : list A) :
  forall i a, nth_error l i = Some a -> In a (firstn (S i) l).
Proof.
  induction l as [| x l IH]; intros [| i] a H; simpl in *; try discriminate.
  - left. congruence.
  - right. apply IH. exact H.
Qed.

(** Whatever the rendering of the two label columns, two rows share the
    final label if and only if their composite keys are the same string.
    Ids are handed out in order of first appearance: the id of a row is
    the rank of its key among the distinct keys seen so far, and does not
    depend on the rows that follow. *)
Lemma fuse_labels_follow_composite_keys :
  forall (astype_str : Z -> string) (rows : list (Z * Z)),
    (forall i j a b,
        nth_error rows i = Some a -> nth_error rows j = Some b ->
        exists ca cb,
          nth_error (fuse_labels astype_str rows) i = Some (fst a * 10, ca)
          /\ nth_error (fuse_labels astype_str rows) j = Some (fst b * 10, cb)
          /\ (ca = cb <->
              combi_id astype_str (fst a * 10) (snd a)
              = combi_id astype_str (fst b * 10) (snd b))
          /\ (a = b -> ca = cb)
          /\ ca = code_of
                    (factorize_uniques []
                       (map (fun r => combi_id astype_str (fst r * 10) (snd r))
                            (firstn (S i) rows)))
                    (combi_id astype_str (fst a * 10) (snd a)))
    /\ (forall more,
          firstn (length rows) (fuse_labels astype_str (rows ++ more))
          = fuse_labels astype_str rows).
Proof.
  intros astype_str rows.
  set (key := fun r : Z * Z => combi_id astype_str (fst r * 10) (snd r)).
  split.
  - intros i j a b Ha Hb.
    destruct (fuse_labels_nth astype_str rows i a Ha) as [Hia (na & Hna)].
    destruct (fuse_labels_nth astype_str rows j b Hb) as [Hjb (nb & Hnb)].
    fold key in Hia, Hjb, Hna, Hnb.
    set (U := factorize_uniques [] (map key rows)) in *.
    exists (code_of U (key a)), (code_of U (key b)).
    split; [exact Hia |]. split; [exact Hjb |].
    split; [eapply code_of_inj; eauto |].
    split; [intros ->; reflexivity |].
    (* the id of row [i] is already fixed by the first [i + 1] rows *)
    destruct (factorize_from_codes (map key (firstn (S i) rows)) [])
      as [_ Hall].
    rewrite Forall_forall in Hall.
    destruct (Hall (key a)) as (n' & Hn').
    { apply in_map, nth_error_firstn_In, Ha. }
    assert (HU : index_of (key a) U 0 = Some n').
    { unfold U. rewrite <- (firstn_skipn (S i) rows) at 1.
      rewrite map_app, factorize_uniques_app.
      apply index_of_factorize_uniques. exact Hn'. }
    unfold code_of. rewrite HU.
    change (key a) with (combi_id astype_str (fst a * 10) (snd a)) in Hn'.
    rewrite Hn'. reflexivity.
  - intros more. rewrite !fuse_labels_unfold. fold key.
    unfold pd_factorize. rewrite !map_app, factorize_from_app.
    rewrite combine_app_eq
      by (rewrite factorize_from_length, !length_map; reflexivity).
    apply firstn_app_exact.
    rewrite length_combine, factorize_from_length, !length_map. lia.
Qed.

(** ** Float-rendered labels decode uniquely *)

Lemma string_app_assoc (a b c : string) :
  ((a ++ b) ++ c)%string = (a ++ (b ++ c))%string.
Proof.
  induction a as [| x a IH]; simpl; [reflexivity |]. rewrite IH. reflexivity.
Qed.

Lemma uint_no_dot (d : Decimal.uint) :
  ~ In "."%char (list_ascii_of_string (NilEmpty.string_of_uint d)).
Proof.
  induction d; simpl; intros H; try contradiction;
    destruct H as [H | H]; try discriminate; auto.
Qed.

Lemma astype_str_int_no_dot (z : Z) :
  ~ In "."%char (list_ascii_of_string (astype_str_int z)).
Proof.
  unfold astype_str_int.
  assert (Hu : forall d,
             ~ In "."%char (list_ascii_of_string (NilZero.string_of_uint d))).
  { intros d. destruct d; try apply uint_no_dot.
    simpl. intros [H | []]. discriminate. }
  destruct (Z.to_int z) as [d | d]; simpl.
  - apply Hu.
  - intros [H | H]; [discriminate | exact (Hu d H)].
Qed.

Lemma split_at_dot (s : string) :
  forall s' r r',
    ~ In "."%char (list_ascii_of_string s) ->
    ~ In "."%char (list_ascii_of_string s') ->
    (s ++ String "." r)%string = (s' ++ String "." r')%string ->
    s = s' /\ r = r'.
Proof.
  induction s as [| c s IH]; intros [| c' s'] r r' Hs Hs' H; simpl in *.
  - inversion H. auto.
  - inversion H. subst c'. exfalso. apply Hs'. left. reflexivity.
  - inversion H. subst c. exfalso. apply Hs. left. reflexivity.
  - inversion H. subst c'.
    destruct (IH s' r r') as [-> ->]; auto.
Qed.

Lemma astype_str_int_inj (a b : Z) :
  astype_str_int a = astype_str_int b -> a = b.
Proof.
  unfold astype_str_int. intros H.
  assert (Hn : forall z, Z.to_int z <> Decimal.Pos Decimal.Nil
                         /\ Z.to_int z <> Decimal.Neg Decimal.Nil).
  { intros [| p | p]; simpl; split; try discriminate;
      intros E; inversion E as [E'];
      exact (DecimalPos.Unsigned.to_uint_nonnil p E'). }
  assert (E : Some (Z.to_int a) = Some (Z.to_int b)).
  { rewrite <- (NilZero.isi (Z.to_int a)) by apply Hn.
    rewrite <- (NilZero.isi (Z.to_int b)) by apply Hn.
    rewrite H. reflexivity. }
  inversion E as [E'].
  rewrite <- (DecimalZ.of_to a), <- (DecimalZ.of_to b), E'. reflexivity.
Qed.

(** With the labels held in float columns, the composite key determines
    both of its components. *)
Lemma float_keys_decode (v1 x1 v2 x2 : Z) :
  combi_id astype_str_float v1 x1 = combi_id astype_str_float v2 x2 ->
  v1 = v2 /\ x1 = x2.
Proof.
  unfold combi_id, astype_str_float. rewrite !string_app_assoc. simpl.
  intros H.
  apply split_at_dot in H; try apply astype_str_int_no_dot.
  destruct H as [Hv H]. inversion H as [Hx].
  apply split_at_dot in Hx; try apply astype_str_int_no_dot.
  destruct Hx as [Hx _].
  split; apply astype_str_int_inj; assumption.
Qed.

(** C5.  The two label columns are float columns, and numpy renders them
    as such.  Two rows then share the final label if and only if they
    have the same (sub-cluster label, density-cluster label) pair.  Ids
    are handed out in order of first appearance: the id of a row is the
    rank of its key among the distinct keys of the rows up to it, and
    does not depend on the rows that follow. *)
Theorem label_fuser_same_label_iff_same_pair :
  forall rows : list (Z * Z),
    (forall i j a b,
        nth_error rows i = Some a -> nth_error rows j = Some b ->
        exists ca cb,
          nth_error (fuse_labels astype_str_float rows) i
          = Some (fst a * 10, ca)
          /\ nth_error (fuse_labels astype_str_float rows) j
             = Some (fst b * 10, cb)
          /\ (ca = cb <-> a = b)
          /\ ca = code_of
                    (factorize_uniques []
                       (map (fun r => combi_id astype_str_float
                                               (fst r * 10) (snd r))
                            (firstn (S i) rows)))
                    (combi_id astype_str_float (fst a * 10) (snd a)))
    /\ (forall more,
          firstn (length rows) (fuse_labels astype_str_float (rows ++ more))
          = fuse_labels astype_str_float rows).
Proof.
  intros rows.
  destruct (fuse_labels_follow_composite_keys astype_str_float rows)
    as [Hkeys Hstable].
  split; [| exact Hstable].
  intros i j a b Ha Hb.
  destruct (Hkeys i j a b Ha Hb) as (ca & cb & Hia & Hjb & Hiff & _ & Hrank).
  exists ca, cb. split; [exact Hia |]. split; [exact Hjb |].
  split; [| exact Hrank].
  rewrite Hiff. split.
  - intros H. apply float_keys_decode in H. destruct H as [H1 H2].
    destruct a, b; simpl in *. f_equal; lia.
  - intros ->. reflexivity.
Qed.

Lemma label_fuser_witness :
  nth_error [(-1, 5); (-1, 7); (-1, 5)] 0 = Some (-1, 5)
  /\ nth_error [(-1, 5); (-1, 7); (-1, 5)] 2 = Some (-1, 5)
  /\ fuse_labels astype_str_float [(-1, 5); (-1, 7); (-1, 5)]
     = [(-10, 0); (-10, 1); (-10, 0)]
  /\ exists ca cb,
       nth_error (fuse_labels astype_str_float [(-1, 5); (-1, 7); (-1, 5)]) 0
       = Some (fst (-1, 5) * 10, ca)
       /\ nth_error (fuse_labels astype_str_float
                       [(-1, 5); (-1, 7); (-1, 5)]) 2
          = Some (fst (-1, 5) * 10, cb)
       /\ (ca = cb <-> (-1, 5) = (-1, 5)).
Proof.
  split; [reflexivity |]. split; [reflexivity |].
  split; [vm_compute; reflexivity |].
  destruct (proj1 (label_fuser_same_label_iff_same_pair
                     [(-1, 5); (-1, 7); (-1, 5)])
                  0%nat 2%nat (-1, 5) (-1, 5) eq_refl eq_refl)
    as (ca & cb & Ha & Hb & Hiff & _).
  exists ca, cb. auto.
Defined.

(* ================================================================== *)
(** * SeededClusterer: polygons too small to split *)
(* ================================================================== *)

Lemma in_insert_key (k k' : Z) (ks : list Z) :
  In k (insert_key k' ks) <-> k = k' \/ In k ks.
Proof.
  induction ks as [| h t IH]; simpl.
  - intuition.
  - destruct (Z.ltb_spec k' h); simpl; [intuition |].
    destruct (Z.eqb_spec k' h) as [-> | Hne]; simpl.
    + intuition.
    + rewrite IH. intuition.
Qed.

Lemma in_unique_sorted (k : Z) (ks : list Z) :
  In k (unique_sorted ks) <-> In k ks.
Proof.
  induction ks as [| h t IH]; simpl; [tauto |].
  rewrite in_insert_key, IH. intuition.
Qed.

Lemma groupby_complete {A : Type} (key : A -> Z) (df : list A) (r : A) :
  In r df ->
  In (key r, filter (fun x => key x =? key r) df) (groupby key df).
Proof.
  intros H. unfold groupby. apply in_map_iff. exists (key r).
  split; [reflexivity |]. apply in_unique_sorted, in_map, H.
Qed.

Lemma index_eq_true (a : list Z) : forall b, index_eq a b = true -> a = b.
Proof.
  induction a as [| x a IH]; intros [| y b]; simpl; intros H;
    try discriminate; [reflexivity |].
  apply andb_true_iff in H. destruct H as [Hx H].
  apply Z.eqb_eq in Hx. subst. f_equal. auto.
Qed.

Lemma combine_fst_snd {A B : Type} (l : list (A * B)) :
  combine (map fst l) (map snd l) = l.
Proof.
  induction l as [| [a b] l IH]; simpl; [reflexivity |].
  rewrite IH. reflexivity.
Qed.

Lemma lookup_in (p : Z) (l : list (Z * Z)) :
  In p (map fst l) -> exists v, lookup p l = Some v.
Proof.
  induction l as [| [j v] l IH]; simpl; [tauto |].
  destruct (Z.eqb_spec p j) as [-> | Hne]; [eauto |].
  intros [H | H]; [congruence | auto].
Qed.

Lemma lookup_constant (p c : Z) (l : list Z) :
  In p l -> lookup p (map (fun i => (i, c)) l) = Some c.
Proof.
  induction l as [| j l IH]; simpl; [tauto |].
  destruct (Z.eqb_spec p j); [reflexivity |].
  intros [H | H]; [congruence | auto].
Qed.

Lemma lookup_updated_rows (other self : list (Z * Z)) (p : Z) :
  In p (map fst self) ->
  lookup p (map (fun iv : Z * Z =>
                   match lookup (fst iv) other with
                   | Some v => (fst iv, v)
                   | None => iv
                   end) self)
  = match lookup p other with
    | Some v => Some v
    | None => lookup p self
    end.
Proof.
  induction self as [| [i v] self IH]; simpl; [tauto |].
  intros Hp. destruct (Z.eqb_spec p i) as [-> | Hne].
  - destruct (lookup i other); simpl; rewrite Z.eqb_refl; reflexivity.
  - destruct Hp as [Hp | Hp]; [congruence |].
    destruct (lookup i other); simpl;
      destruct (Z.eqb_spec p i); try congruence; apply IH; exact Hp.
Qed.

(** What [update] does to the value found under an index of [self]. *)
Lemma DataFrame_update_lookup (self other self' : list (Z * Z)) :
  DataFrame_update self other = inr self' ->
  map fst self' = map fst self
  /\ forall p, In p (map fst self) ->
       lookup p self' = match lookup p other with
                        | Some v => Some v
                        | None => lookup p self
                        end.
Proof.
  unfold DataFrame_update.
  destruct (index_eq (map fst other) (map fst self)) eqn:Heq.
  - apply index_eq_true in Heq. intros H. inversion H; subst self'. clear H.
    rewrite <- Heq, combine_fst_snd. split; [reflexivity |].
    intros p Hp. destruct (lookup_in p other Hp) as (v & ->). reflexivity.
  - destruct (has_dup (map fst other)); [discriminate |].
    intros H. inversion H; subst self'. clear H. split.
    + rewrite map_map. apply map_ext. intros [i v]. simpl.
      destruct (lookup i other); reflexivity.
    + intros p Hp. apply lookup_updated_rows. exact Hp.
Qed.

Lemma nth_error_combine_inv {A B : Type} (l : list A) :
  forall (m : list B) i a b,
    nth_error (combine l m) i = Some (a, b) ->
    nth_error l i = Some a /\ nth_error m i = Some b.
Proof.
  induction l as [| x l IH]; intros [| y m] [| i] a b; simpl; intros H;
    try discriminate.
  - inversion H. auto.
  - auto.
Qed.

Lemma lookup_constant_inv (p c v : Z) (l : list Z) :
  lookup p (map (fun i => (i, c)) l) = Some v -> In p l /\ v = c.
Proof.
  induction l as [| j l IH]; simpl; [discriminate |].
  destruct (Z.eqb_spec p j) as [-> | Hne].
  - intros H. inversion H. auto.
  - intros H. destruct (IH H). auto.
Qed.

Lemma lookup_constant_none (p c : Z) (l : list Z) :
  lookup p (map (fun i => (i, c)) l) = None -> ~ In p l.
Proof.
  intros H Hin. rewrite (lookup_constant p c l Hin) in H. discriminate.
Qed.

(** An update by a frame that holds [-1] everywhere: the rows whose
    index it lists take [-1], the others stay as they are. *)
Lemma DataFrame_update_excluded (self self' : list (Z * Z)) (ids : list Z) :
  DataFrame_update self (map (fun i => (i, -1)) ids) = inr self' ->
  map fst self' = map fst self
  /\ forall i p v,
       nth_error self' i = Some (p, v) ->
       (In p ids /\ v = -1)
       \/ (~ In p ids /\ nth_error self i = Some (p, v)).
Proof.
  intros H. split; [apply (DataFrame_update_lookup _ _ _ H) |].
  revert H. unfold DataFrame_update.
  assert (Hfst : map fst (map (fun i : Z => (i, -1)) ids) = ids)
    by (rewrite map_map; apply map_id).
  assert (Hsnd : forall v, In v (map snd (map (fun i : Z => (i, -1)) ids)) ->
                           v = -1).
  { intros v Hv. rewrite map_map in Hv. apply in_map_iff in Hv.
    destruct Hv as (x & <- & _). reflexivity. }
  rewrite Hfst.
  destruct (index_eq ids (map fst self)) eqn:Heq.
  - apply index_eq_true in Heq. intros H. inversion H; subst self'. clear H.
    intros i p v Hi. apply nth_error_combine_inv in Hi.
    destruct Hi as [Hp Hv]. left. split.
    + rewrite Heq. eapply nth_error_In; eauto.
    + apply Hsnd. eapply nth_error_In; eauto.
  - destruct (has_dup ids); [discriminate |].
    intros H. inversion H; subst self'. clear H.
    intros i p v Hi. rewrite nth_error_map in Hi.
    destruct (nth_error self i) as [[q w] |] eqn:Hs; [| discriminate].
    simpl in Hi.
    destruct (lookup q (map (fun i : Z => (i, -1)) ids)) as [u |] eqn:Hl;
      inversion Hi; subst.
    + apply lookup_constant_inv in Hl. left. exact Hl.
    + apply lookup_constant_none in Hl. right. auto.
Qed.

Section KmeanProperties.

Variable peak_local_max : image -> Z -> list (Z * Z).
Variable KMeans_fit : KMeans_params -> list (Q * Q * Q) -> result (list Z).
Variable pdal_estimate : list grouped_point -> result (list (Q * Q * Q * Q)).

Variable tree_df : list polygon_row.
Variable min_dist : Z.
Variable relative_threshold round_val : Q.

Local Abbreviation body :=
  (kmean_cluster_body peak_local_max KMeans_fit pdal_estimate tree_df
                      min_dist relative_threshold round_val).

(** A polygon that qualifies for splitting stops the loop: the call of
    [find_n_clusters_peaks] in [kmean_cluster_group] raises. *)
Lemma kmean_cluster_body_raises (st : kmean_state) (name : Z)
    (group : list grouped_point) (a : Q) :
  tree_area tree_df name = inr a ->
  splittable name a group = true ->
  body st (name, group) = raise TypeError.
Proof.
  intros Ha Hs. unfold kmean_cluster_body. rewrite Ha. simpl. rewrite Hs.
  reflexivity.
Qed.

(** An iteration that returns has found one polygon for the cluster, too
    small to split, and has written [-1] for its points. *)
Lemma kmean_cluster_body_returns (st st1 : kmean_state) (name : Z)
    (group : list grouped_point) :
  body st (name, group) = inr st1 ->
  (exists a, tree_area tree_df name = inr a
             /\ splittable name a group = false)
  /\ DataFrame_update (labs st) (map (fun i => (i, -1)) (map pid group))
     = inr (labs st1)
  /\ tree_coords st1 = tree_coords st.
Proof.
  intros H.
  destruct (tree_area tree_df name) as [e | a] eqn:Ha.
  - unfold kmean_cluster_body in H. rewrite Ha in H. discriminate.
  - destruct (splittable name a group) eqn:Hs.
    + rewrite (kmean_cluster_body_raises st name group a Ha Hs) in H.
      discriminate.
    + unfold kmean_cluster_body in H. rewrite Ha in H. simpl in H.
      rewrite Hs in H.
      apply bind_inr in H. destruct H as (labs' & Hupd & H).
      inversion H; subst st1; clear H. simpl.
      split; [exists a; auto |]. split; [| reflexivity].
      rewrite map_map. exact Hupd.
Qed.

(** The loop over the polygons, when it returns: no polygon qualified,
    [self.tree_coords] is as it was, and a cell of the 'labs' column
    holds [-1] once a polygon listing its point id has been visited. *)
Lemma kmean_loop_returns (l : list (Z * list grouped_point)) :
  forall st st',
    for_each body st l = inr st' ->
    tree_coords st' = tree_coords st
    /\ map fst (labs st') = map fst (labs st)
    /\ (forall name group,
          In (name, group) l ->
          exists a, tree_area tree_df name = inr a
                    /\ splittable name a group = false)
    /\ (forall i p v,
          nth_error (labs st') i = Some (p, v) ->
          v = -1
          \/ ((forall name group, In (name, group) l ->
                                  ~ In p (map pid group))
              /\ nth_error (labs st) i = Some (p, v))).
Proof.
  induction l as [| [name group] l IH]; intros st st' H; simpl in H.
  - inversion H; subst st'. repeat split; try reflexivity.
    + intros ? ? [].
    + intros i p v Hi. right. split; [intros ? ? [] | exact Hi].
  - apply bind_inr in H. destruct H as (st1 & H1 & H).
    apply kmean_cluster_body_returns in H1.
    destruct H1 as (Hsmall & Hupd & Hcoords).
    apply DataFrame_update_excluded in Hupd. destruct Hupd as [Hidx Hcell].
    destruct (IH st1 st' H) as (Hc & Hi & Hall & Hlabs).
    split; [congruence |]. split; [congruence |]. split.
    + intros n g [E | Hin]; [inversion E; subst; exact Hsmall | eauto].
    + intros i p v Hnth.
      destruct (Hlabs i p v Hnth) as [Hv | [Hnot Hnth1]]; [left; exact Hv |].
      destruct (Hcell i p v Hnth1) as [[_ Hv] | [Hout Hnth0]];
        [left; exact Hv |].
      right. split; [| exact Hnth0].
      intros n g [E | Hin]; [inversion E; subst; exact Hout | eauto].
Qed.

End KmeanProperties.

(** What a returning [kmean_cluster] has done: no polygon of the table
    qualified for splitting, [self.tree_coords] is untouched, and every
    row carries [value_clusterID = -10] and a final label that is not
    negative. *)
Lemma kmean_cluster_returns
    (peak_local_max : image -> Z -> list (Z * Z))
    (KMeans_fit : KMeans_params -> list (Q * Q * Q) -> result (list Z))
    (pdal_estimate : list grouped_point -> result (list (Q * Q * Q * Q)))
    (astype_str : Z -> string)
    (tree_df : list polygon_row) (self_tree_coords : list (Q * Q * Q))
    (xy_grouped_points : list grouped_point) (min_dist : Z)
    (relative_threshold round_val : Q)
    (out : list fused_point) (coords : list (Q * Q * Q)) :
  kmean_cluster peak_local_max KMeans_fit pdal_estimate astype_str tree_df
                self_tree_coords xy_grouped_points min_dist
                relative_threshold round_val
  = inr (out, coords) ->
  coords = self_tree_coords
  /\ (forall name group,
        In (name, group) (groupby g_xy_clusterID xy_grouped_points) ->
        exists a, tree_area tree_df name = inr a
                  /\ splittable name a group = false)
  /\ (forall f, In f out ->
        In (k_point f) xy_grouped_points
        /\ value_clusterID f = -10
        /\ 0 <= k_Classification f).
Proof.
  intros Hrun. unfold kmean_cluster in Hrun.
  apply bind_inr in Hrun. destruct Hrun as (st & Hloop & Hret).
  inversion Hret; subst out coords; clear Hret.
  apply kmean_loop_returns in Hloop. simpl in Hloop.
  destruct Hloop as (Hc & Hidx & Hall & Hlabs).
  split; [exact Hc |]. split; [exact Hall |].
  intros f Hf.
  apply in_zip_with in Hf. destruct Hf as (i & g & [v c] & Hg & Hvc & ->).
  simpl.
  assert (Hin : In g xy_grouped_points) by (eapply nth_error_In; eauto).
  split; [exact Hin |].
  rewrite fuse_labels_unfold in Hvc.
  apply nth_error_combine_inv in Hvc. destruct Hvc as [Hv Hcode].
  split.
  - rewrite nth_error_map in Hv.
    destruct (nth_error (combine (map snd (labs st))
                                 (map g_xy_clusterID xy_grouped_points)) i)
      as [[x k] |] eqn:Hr; [| discriminate].
    inversion Hv; subst v; clear Hv. simpl.
    apply nth_error_combine_inv in Hr. destruct Hr as [Hx _].
    rewrite nth_error_map in Hx.
    destruct (nth_error (labs st) i) as [[p x'] |] eqn:Hl; [| discriminate].
    inversion Hx; subst x'; clear Hx.
    assert (Hp : p = pid g).
    { assert (E : nth_error (map fst (labs st)) i = Some p)
        by (rewrite nth_error_map, Hl; reflexivity).
      rewrite Hidx, map_map in E. simpl in E.
      rewrite nth_error_map, Hg in E. inversion E. reflexivity. }
    subst p.
    destruct (Hlabs i (pid g) x Hl) as [-> | [Hnot _]]; [reflexivity |].
    exfalso.
    apply (Hnot (g_xy_clusterID g)
                (filter (fun r => g_xy_clusterID r =? g_xy_clusterID g)
                        xy_grouped_points)).
    + apply groupby_complete. exact Hin.
    + apply in_map, filter_In. split; [exact Hin | apply Z.eqb_refl].
  - pose proof (factorize_from_nonneg
                  (map (fun r => combi_id astype_str (fst r * 10) (snd r))
                       (combine (map snd (labs st))
                                (map g_xy_clusterID xy_grouped_points)))
                  []) as Hnn.
    rewrite Forall_forall in Hnn. apply Hnn.
    eapply nth_error_In. exact Hcode.
Qed.




(* ================================================================== *)
(** * PeakDetector: the raster *)
(* ================================================================== *)


Lemma np_round_comp (q q' : Q) : (q == q')%Q -> np_round q = np_round q'.
Proof.
  intros H. unfold np_round. rewrite (Qfloor_comp _ _ H).
  assert (E : (q - inject_Z (Qfloor q') == q' - inject_Z (Qfloor q'))%Q)
    by (rewrite H; reflexivity).
  rewrite (Qcompare_comp _ _ E _ _ (Qeq_refl (1 # 2))). reflexivity.
Qed.

Lemma np_round_inject_Z (k : Z) : np_round (inject_Z k) = k.
Proof.
  unfold np_round. rewrite Qfloor_Z.
  assert (H : (inject_Z k - inject_Z k == 0)%Q) by ring.
  rewrite (Qcompare_comp _ _ H _ _ (Qeq_refl (1 # 2))). reflexivity.
Qed.



Lemma fold_Qmin_spec (l : list Q) :
  forall x, In (fold_left Qmin l x) (x :: l)
            /\ Forall (fun y => (fold_left Qmin l x <= y)%Q) (x :: l).
Proof.
  induction l as [| a l IH]; intros x; simpl.
  - split; [auto | constructor; [apply Qle_refl | constructor]].
  - destruct (IH (Qmin x a)) as [Hin Hall]. split.
    + destruct Hin as [Hin | Hin]; [| auto].
      rewrite <- Hin. unfold Qmin. destruct (Qle_bool x a); auto.
    + inversion Hall as [| ? ? Hm Hl]; subst.
      assert (Hxa : (Qmin x a <= x)%Q /\ (Qmin x a <= a)%Q).
      { unfold Qmin. destruct (Qle_bool x a) eqn:E.
        - apply Qle_bool_iff in E. split; [apply Qle_refl | exact E].
        - split; [| apply Qle_refl].
          apply Qlt_le_weak, Qnot_le_lt. intros H.
          apply Qle_bool_iff in H. congruence. }
      destruct Hxa as [Hx Ha].
      constructor; [eapply Qle_trans; eauto |].
      constructor; [eapply Qle_trans; eauto | exact Hl].
Qed.

Lemma fold_Qmax_spec (l : list Q) :
  forall x, In (fold_left Qmax l x) (x :: l)
            /\ Forall (fun y => (y <= fold_left Qmax l x)%Q) (x :: l).
Proof.
  induction l as [| a l IH]; intros x; simpl.
  - split; [auto | constructor; [apply Qle_refl | constructor]].
  - destruct (IH (Qmax x a)) as [Hin Hall]. split.
    + destruct Hin as [Hin | Hin]; [| auto].
      rewrite <- Hin. unfold Qmax. destruct (Qle_bool x a); auto.
    + inversion Hall as [| ? ? Hm Hl]; subst.
      assert (Hxa : (x <= Qmax x a)%Q /\ (a <= Qmax x a)%Q).
      { unfold Qmax. destruct (Qle_bool x a) eqn:E.
        - apply Qle_bool_iff in E. split; [exact E | apply Qle_refl].
        - split; [apply Qle_refl |].
          apply Qlt_le_weak, Qnot_le_lt. intros H.
          apply Qle_bool_iff in H. congruence. }
      destruct Hxa as [Hx Ha].
      constructor; [eapply Qle_trans; eauto |].
      constructor; [eapply Qle_trans; eauto | exact Hl].
Qed.

Lemma py_min_spec (l : list Q) :
  l <> [] ->
  exists m, py_min l = inr m /\ In m l /\ Forall (fun y => (m <= y)%Q) l.
Proof.
  destruct l as [| x l]; [congruence |]. intros _.
  exists (fold_left Qmin l x). split; [reflexivity |]. apply fold_Qmin_spec.
Qed.

Lemma py_max_spec (l : list Q) :
  l <> [] ->
  exists m, py_max l = inr m /\ In m l /\ Forall (fun y => (y <= m)%Q) l.
Proof.
  destruct l as [| x l]; [congruence |]. intros _.
  exists (fold_left Qmax l x). split; [reflexivity |]. apply fold_Qmax_spec.
Qed.

(** Rounding and dividing where [round_val] is not zero, and where it
    is. *)
Lemma Qeq_bool_nonzero (b : Q) : ~ (b == 0)%Q -> Qeq_bool b 0 = false.
Proof.
  intros H. destruct (Qeq_bool b 0) eqn:E; [| reflexivity].
  apply Qeq_bool_iff in E. contradiction.
Qed.

Lemma np_divide_number (x b : Q) :
  ~ (b == 0)%Q -> np_divide (Some x) b = Some (x / b)%Q.
Proof. intros H. unfold np_divide. rewrite Qeq_bool_nonzero by exact H. reflexivity. Qed.

Lemma round_to_val1_number (round_val x : Q) :
  ~ (round_val == 0)%Q ->
  round_to_val1 round_val (Some x)
  = Some (inject_Z (np_round (x / round_val)) * round_val)%Q.
Proof.
  intros H. unfold round_to_val1. rewrite np_divide_number by exact H.
  reflexivity.
Qed.

Lemma round_to_val1_zero (round_val : Q) (x : np_float) :
  (round_val == 0)%Q -> round_to_val1 round_val x = None.
Proof.
  intros H. unfold round_to_val1, np_divide.
  apply Qeq_bool_iff in H. rewrite H. destruct x; reflexivity.
Qed.


Lemma dropna_rounded_frame (xyz_points : list (Q * Q * Q)) (round_val : Q) :
  ~ (round_val == 0)%Q ->
  dropna_keys (rounded_frame xyz_points round_val)
  = number_frame xyz_points round_val.
Proof.
  intros H. unfold rounded_frame, number_frame.
  induction xyz_points as [| [[x y] z] l IH]; [reflexivity |].
  cbn [map dropna_keys flat_map f_x_round f_y_round fX fY fZ].
  rewrite !round_to_val1_number by exact H.
  cbn [app]. f_equal. exact IH.
Qed.

Lemma dropna_rounded_frame_zero (xyz_points : list (Q * Q * Q))
    (round_val : Q) :
  (round_val == 0)%Q ->
  dropna_keys (rounded_frame xyz_points round_val) = [].
Proof.
  intros H. unfold rounded_frame.
  induction xyz_points as [| [[x y] z] l IH]; [reflexivity |].
  cbn [map dropna_keys flat_map f_x_round f_y_round].
  rewrite !round_to_val1_zero by exact H. exact IH.
Qed.

Lemma groupby_max_number (xyz_points : list (Q * Q * Q)) (round_val : Q) :
  ~ (round_val == 0)%Q ->
  groupby_max (rounded_frame xyz_points round_val)
  = bin_rows (number_frame xyz_points round_val).
Proof.
  intros H. unfold groupby_max. rewrite dropna_rounded_frame by exact H.
  reflexivity.
Qed.

Lemma groupby_max_zero (xyz_points : list (Q * Q * Q)) (round_val : Q) :
  (round_val == 0)%Q ->
  groupby_max (rounded_frame xyz_points round_val) = [].
Proof.
  intros H. unfold groupby_max. rewrite dropna_rounded_frame_zero by exact H.
  reflexivity.
Qed.


Lemma bin_insert_keys (r : grid_row) (l : list grid_row) (b : grid_row) :
  In b (bin_insert r l) ->
  exists h, (h = r \/ In h l)
            /\ x_round b = x_round h /\ y_round b = y_round h.
Proof.
  induction l as [| h t IH]; simpl.
  - intros [Hb | []]. exists r. subst b. auto.
  - destruct (key_compare r h).
    + (* same cell: the row of the cell is updated, its key kept *)
      intros [Hb | H].
      * exists h. subst b. simpl. auto.
      * exists b. auto.
    + intros [Hb | H].
      * exists r. subst b. auto.
      * exists b. auto.
    + intros [Hb | H].
      * exists h. subst b. auto.
      * destruct (IH H) as (h' & [Hr | Hin] & Hk).
        -- exists h'. auto.
        -- exists h'. auto.
Qed.


Lemma bin_insert_nonempty (r : grid_row) (l : list grid_row) :
  bin_insert r l <> [].
Proof.
  destruct l as [| h t]; simpl; [discriminate |].
  destruct (key_compare r h); discriminate.
Qed.

Lemma bin_rows_nonempty (df : list grid_row) :
  df <> [] -> bin_rows df <> [].
Proof.
  unfold bin_rows.
  assert (G : forall df acc, acc <> [] ->
                fold_left (fun acc r => bin_insert r acc) df acc <> []).
  { clear. induction df as [| r df IH]; intros acc H; simpl; [exact H |].
    apply IH, bin_insert_nonempty. }
  destruct df as [| r df]; [congruence |]. intros _. simpl.
  apply G. discriminate.
Qed.


Lemma groupby_max_nonempty (xyz_points : list (Q * Q * Q)) (round_val : Q) :
  xyz_points <> [] -> ~ (round_val == 0)%Q ->
  groupby_max (rounded_frame xyz_points round_val) <> [].
Proof.
  intros Hne Hnz. rewrite groupby_max_number by exact Hnz.
  apply bin_rows_nonempty. unfold number_frame.
  destruct xyz_points; [congruence | discriminate].
Qed.


Lemma Forall_list_set {A : Type} (P : A -> Prop) (l : list A) :
  forall n v, Forall P l -> P v -> Forall P (list_set l n v).
Proof.
  induction l as [| a l IH]; intros [| n] v Hl Hv; simpl; auto;
    inversion Hl; subst; constructor; auto.
Qed.








(* ================================================================== *)
(** * Further properties: rounding to the grid *)
(* ================================================================== *)

Lemma np_round_close (q : Q) : (Qabs (inject_Z (np_round q) - q) <= 1 # 2)%Q.
Proof.
  apply Qabs_Qle_condition. unfold np_round.
  pose proof (Qfloor_le q) as Hlo. pose proof (Qlt_floor q) as Hhi.
  rewrite inject_Z_plus in Hhi. change (inject_Z 1) with 1%Q in Hhi.
  destruct (Qcompare (q - inject_Z (Qfloor q)) (1 # 2)) eqn:E.
  - apply Qeq_alt in E.
    destruct (Z.even (Qfloor q)); [| rewrite inject_Z_plus];
      change (inject_Z 1) with 1%Q; lra.
  - apply Qlt_alt in E. lra.
  - apply Qgt_alt in E. rewrite inject_Z_plus.
    change (inject_Z 1) with 1%Q. lra.
Qed.

Lemma np_round_on_grid (n : Z) (round_val : Q) :
  ~ (round_val == 0)%Q ->
  np_round (inject_Z n * round_val / round_val) = n.
Proof.
  intros Hrv. rewrite <- (np_round_inject_Z n) at 2.
  apply np_round_comp. field. exact Hrv.
Qed.

(** X1.  For a positive [round_val], every entry of [round_to_val a
    round_val] that comes from a number is an integer multiple of
    [round_val] and lies within half a [round_val] of the entry of [a]
    it was rounded from. *)
Theorem round_to_val_nearest_multiple :
  forall (a : list np_float) (round_val : Q) (i : nat) (x : Q),
    (0 < round_val)%Q ->
    nth_error a i = Some (Some x) ->
    exists n y,
      nth_error (round_to_val a round_val) i = Some (Some y)
      /\ y = (inject_Z n * round_val)%Q
      /\ (Qabs (y - x) <= round_val / 2)%Q.
Proof.
  intros a rv i x Hrv Hx.
  exists (np_round (x / rv)), (inject_Z (np_round (x / rv)) * rv)%Q.
  split; [| split; [reflexivity |]].
  - unfold round_to_val. rewrite nth_error_map, Hx. simpl.
    rewrite round_to_val1_number by lra. reflexivity.
  - pose proof (np_round_close (x / rv)) as Hc.
    apply Qabs_Qle_condition in Hc. apply Qabs_Qle_condition.
    assert (Hx' : (x == x / rv * rv)%Q) by (field; lra).
    set (q := (x / rv)%Q) in *. set (n := inject_Z (np_round q)) in *.
    destruct Hc as [Hlo Hhi].
    assert (E1 : (n * rv - x == (n - q) * rv)%Q) by (rewrite Hx' at 1; ring).
    assert (E2 : (rv / 2 == (1 # 2) * rv)%Q) by field.
    rewrite E1, E2. split.
    + setoid_replace (- ((1 # 2) * rv))%Q with ((- (1 # 2)) * rv)%Q by ring.
      apply Qmult_le_compat_r; lra.
    + apply Qmult_le_compat_r; lra.
Qed.

Lemma round_to_val_witness :
  (0 < 2)%Q
  /\ nth_error [Some (7 # 2); Some 1]%Q 0 = Some (Some (7 # 2))
  /\ exists n y,
       nth_error (round_to_val [Some (7 # 2); Some 1]%Q 2) 0 = Some (Some y)
       /\ y = (inject_Z n * 2)%Q
       /\ (Qabs (y - (7 # 2)) <= 2 / 2)%Q.
Proof.
  assert (H : (0 < 2)%Q) by reflexivity.
  split; [exact H |]. split; [reflexivity |].
  exact (round_to_val_nearest_multiple [Some (7 # 2); Some 1]%Q 2 0 (7 # 2)
           H eq_refl).
Defined.

(** X2.  Rounding to the grid is idempotent: for a non-zero [round_val],
    applying [round_to_val] to its own output changes nothing. *)
Theorem round_to_val_idempotent :
  forall (a : list np_float) (round_val : Q),
    ~ (round_val == 0)%Q ->
    round_to_val (round_to_val a round_val) round_val
    = round_to_val a round_val.
Proof.
  intros a rv Hrv. unfold round_to_val. rewrite map_map.
  apply map_ext. intros [x |]; [| reflexivity].
  rewrite !round_to_val1_number by exact Hrv.
  rewrite np_round_on_grid by exact Hrv. reflexivity.
Qed.

Lemma round_to_val_idempotent_witness :
  ~ (2 == 0)%Q
  /\ round_to_val (round_to_val [Some (7 # 2); Some 1]%Q 2) 2
     = round_to_val [Some (7 # 2); Some 1]%Q 2.
Proof.
  assert (H : ~ (2 == 0)%Q) by discriminate.
  split; [exact H |].
  exact (round_to_val_idempotent [Some (7 # 2); Some 1]%Q 2 H).
Defined.

(* ================================================================== *)
(** * Further properties: the raster *)
(* ================================================================== *)

(** What a successful [plan_raster] holds. *)
Lemma plan_raster_inr (xyz_points : list (Q * Q * Q)) (round_val : Q)
    (plan : raster_plan) :
  plan_raster xyz_points round_val = inr plan ->
  py_min (map x_round (groupby_max (rounded_frame xyz_points round_val)))
  = inr (plan_minx plan)
  /\ py_min (map y_round (groupby_max (rounded_frame xyz_points round_val)))
     = inr (plan_miny plan)
  /\ plan_cells plan
     = combine
         (combine
            (map (fun b => grid_index (y_round b - plan_miny plan) round_val)
                 (groupby_max (rounded_frame xyz_points round_val)))
            (map (fun b => grid_index (x_round b - plan_minx plan) round_val)
                 (groupby_max (rounded_frame xyz_points round_val))))
         (map gZ (groupby_max (rounded_frame xyz_points round_val))).
Proof.
  unfold plan_raster. intros H.
  apply bind_inr in H. destruct H as (mx & Hmx & H).
  apply bind_inr in H. destruct H as (my & Hmy & H).
  rewrite Hmx, Hmy in H. simpl in H.
  apply bind_inr in H. destruct H as (Mx & _ & H).
  apply bind_inr in H. destruct H as (My & _ & H).
  inversion H; subst plan; clear H. simpl.
  rewrite !map_map. auto.
Qed.

Lemma plan_raster_nonempty (xyz_points : list (Q * Q * Q)) (round_val : Q) :
  xyz_points <> [] -> ~ (round_val == 0)%Q ->
  exists plan, plan_raster xyz_points round_val = inr plan.
Proof.
  intros Hne Hnz. unfold plan_raster.
  set (B := groupby_max (rounded_frame xyz_points round_val)).
  assert (HB : B <> []) by (apply groupby_max_nonempty; assumption).
  assert (Hxs : map x_round B <> [])
    by (destruct B; [congruence | discriminate]).
  assert (Hys : map y_round B <> [])
    by (destruct B; [congruence | discriminate]).
  destruct (py_min_spec _ Hxs) as (mx & Hmx & _).
  destruct (py_min_spec _ Hys) as (my & Hmy & _).
  rewrite Hmx, Hmy. simpl.
  assert (Hxa : map (fun b => x_round b - mx)%Q B <> [])
    by (destruct B; [congruence | discriminate]).
  assert (Hya : map (fun b => y_round b - my)%Q B <> [])
    by (destruct B; [congruence | discriminate]).
  destruct (py_max_spec _ Hxa) as (Mx & HMx & _).
  destruct (py_max_spec _ Hya) as (My & HMy & _).
  rewrite HMx. simpl. rewrite HMy. simpl. eexists. reflexivity.
Qed.

Lemma np_index_error (n i : Z) (e : exn) :
  np_index n i = inl e -> e = IndexError.
Proof.
  unfold np_index. destruct (_ && _); [discriminate |].
  destruct (_ && _); [discriminate |]. intros H. inversion H. reflexivity.
Qed.

Lemma img_set_error (img : image) (r c : Z) (v : Q) (e : exn) :
  img_set img r c v = inl e -> e = IndexError.
Proof.
  unfold img_set.
  destruct (np_index (img_rows img) r) as [e1 | i] eqn:E1; simpl.
  - intros H. inversion H; subst. eapply np_index_error; eauto.
  - destruct (np_index (img_cols img) c) as [e2 | j] eqn:E2; simpl.
    + intros H. inversion H; subst. eapply np_index_error; eauto.
    + discriminate.
Qed.

Lemma img_assign_error (cells : list (Z * Z * Q)) :
  forall img e, img_assign img cells = inl e -> e = IndexError.
Proof.
  unfold img_assign.
  induction cells as [| [[r c] v] cells IH]; intros img e; simpl;
    [discriminate |].
  destruct (img_set img r c v) as [e1 | img1] eqn:E1; simpl.
  - intros H. inversion H; subst. eapply img_set_error; eauto.
  - apply IH.
Qed.

Lemma interpolate_df_nothing_binned (xyz_points : list (Q * Q * Q))
    (round_val : Q) :
  groupby_max (rounded_frame xyz_points round_val) = [] ->
  interpolate_df xyz_points round_val = raise ValueError.
Proof.
  intros H. unfold interpolate_df, plan_raster. rewrite H. reflexivity.
Qed.

(** X3.  [interpolate_df] raises [ValueError] exactly when no point is
    binned: when it is given no points, or when [round_val] is zero, for
    every key is nan then and [groupby] leaves every row out.  In every
    other case the only exception it can raise is the [IndexError] of
    the raster assignment. *)
Theorem interpolate_df_exceptions :
  forall (xyz_points : list (Q * Q * Q)) (round_val : Q),
    (interpolate_df xyz_points round_val = raise ValueError
     <-> xyz_points = [] \/ (round_val == 0)%Q)
    /\ (forall e, interpolate_df xyz_points round_val = inl e ->
                  e = ValueError \/ e = IndexError).
Proof.
  intros pts rv.
  assert (Hcases : (pts = [] \/ (rv == 0)%Q)
                   /\ interpolate_df pts rv = raise ValueError
                   \/ (pts <> [] /\ ~ (rv == 0)%Q)
                      /\ forall e, interpolate_df pts rv = inl e ->
                                   e = IndexError).
  { destruct pts as [| p pts].
    { left. split; [left; reflexivity | reflexivity]. }
    destruct (Qeq_dec rv 0) as [Hz | Hnz].
    { left. split; [right; exact Hz |].
      apply interpolate_df_nothing_binned, groupby_max_zero, Hz. }
    right. split; [split; [discriminate | exact Hnz] |]. intros e.
    destruct (plan_raster_nonempty (p :: pts) rv) as (plan & Hplan);
      [discriminate | exact Hnz |].
    unfold interpolate_df. rewrite Hplan. simpl.
    destruct (img_assign _ _) as [e1 | img] eqn:E1; simpl; [| discriminate].
    intros H. inversion H; subst. eapply img_assign_error; eauto. }
  destruct Hcases as [[Hdeg Hraise] | [[Hne Hnz] Honly]].
  - split; [split; auto |]. intros e H. rewrite Hraise in H.
    inversion H. auto.
  - split.
    + split; [| intros [H | H]; contradiction].
      intros H. apply Honly in H. discriminate.
    + intros e H. right. auto.
Qed.

Lemma interpolate_df_exceptions_witness :
  interpolate_df [(1, 2, 3); (7, 9, 4)]%Q 0 = raise ValueError
  /\ interpolate_df [] 2 = raise ValueError.
Proof.
  split.
  - apply (proj1 (interpolate_df_exceptions [(1, 2, 3); (7, 9, 4)]%Q 0)).
    right. reflexivity.
  - apply (proj1 (interpolate_df_exceptions [] 2)). left. reflexivity.
Defined.





Lemma key_compare_spec (a b : grid_row) :
  match key_compare a b with
  | Eq => same_key a b
  | Lt => key_before a b
  | Gt => key_before b a
  end.
Proof.
  unfold key_compare, same_key, key_before.
  destruct (Qcompare (x_round a) (x_round b)) eqn:Ex.
  - apply Qeq_alt in Ex.
    destruct (Qcompare (y_round a) (y_round b)) eqn:Ey.
    + apply Qeq_alt in Ey. auto.
    + apply Qlt_alt in Ey. auto.
    + apply Qgt_alt in Ey. right. split; [symmetry; exact Ex | exact Ey].
  - apply Qlt_alt in Ex. auto.
  - apply Qgt_alt in Ex. auto.
Qed.

Lemma key_before_trans (a b c : grid_row) :
  key_before a b -> key_before b c -> key_before a c.
Proof. unfold key_before. intros [H1 | [H1 H2]] [H3 | [H3 H4]]; lra. Qed.

Lemma key_before_not_same (a b : grid_row) :
  key_before a b -> same_key a b -> False.
Proof. unfold key_before, same_key. intros [H | [_ H]] [H1 H2]; lra. Qed.

Lemma same_key_refl (a : grid_row) : same_key a a.
Proof. split; reflexivity. Qed.

Lemma same_key_sym (a b : grid_row) : same_key a b -> same_key b a.
Proof. intros [H1 H2]. split; symmetry; assumption. Qed.

Lemma same_key_trans (a b c : grid_row) :
  same_key a b -> same_key b c -> same_key a c.
Proof. intros [H1 H2] [H3 H4]. split; lra. Qed.

Lemma bin_insert_sorted (r : grid_row) (l : list grid_row) :
  StronglySorted key_before l -> StronglySorted key_before (bin_insert r l).
Proof.
  induction l as [| h t IH]; intros Hs; simpl.
  - repeat constructor.
  - inversion Hs as [| ? ? Ht Hh]; subst.
    pose proof (key_compare_spec r h) as Hc.
    destruct (key_compare r h).
    + constructor; [exact Ht |].
      eapply Forall_impl; [| exact Hh]. intros x Hx. exact Hx.
    + constructor; [exact Hs |]. constructor; [exact Hc |].
      eapply Forall_impl; [| exact Hh].
      intros x Hx. eapply key_before_trans; eauto.
    + constructor; [apply IH; exact Ht |].
      apply Forall_forall. intros b Hb.
      destruct (bin_insert_keys _ _ _ Hb) as (h' & [-> | Hin] & Hx & Hy).
      * unfold key_before in *. rewrite Hx, Hy. exact Hc.
      * rewrite Forall_forall in Hh. specialize (Hh _ Hin).
        unfold key_before in *. rewrite Hx, Hy. exact Hh.
Qed.

Lemma Qmax_cases (a b : Q) :
  (Qmax a b = a \/ Qmax a b = b) /\ (a <= Qmax a b)%Q /\ (b <= Qmax a b)%Q.
Proof.
  unfold Qmax. destruct (Qle_bool a b) eqn:E.
  - apply Qle_bool_iff in E. split; [auto |]. split; lra.
  - apply Qle_bool_false_lt in E. split; [auto |]. split; lra.
Qed.

(** Where the rows of [bin_insert r l] come from. *)
Lemma bin_insert_from (r : grid_row) (l : list grid_row) (b : grid_row) :
  In b (bin_insert r l) ->
  (same_key r b /\ gZ b = gZ r)
  \/ (exists h, In h l /\ same_key h b /\ gZ b = gZ h).
Proof.
  induction l as [| h t IH]; simpl.
  - intros [<- | []]. left. split; [apply same_key_refl | reflexivity].
  - pose proof (key_compare_spec r h) as Hc.
    destruct (key_compare r h).
    + intros [<- | Hin].
      * simpl. destruct (Qmax_cases (gZ h) (gZ r)) as [[E | E] _].
        -- right. exists h. split; [left; reflexivity |].
           split; [split; reflexivity | exact E].
        -- left. split; [| exact E]. destruct Hc. split; assumption.
      * right. exists b. split; [right; exact Hin |].
        split; [apply same_key_refl | reflexivity].
    + intros [<- | Hin].
      * left. split; [apply same_key_refl | reflexivity].
      * right. exists b. split; [exact Hin |].
        split; [apply same_key_refl | reflexivity].
    + intros [<- | Hin].
      * right. exists h. split; [left; reflexivity |].
        split; [apply same_key_refl | reflexivity].
      * destruct (IH Hin) as [Hr | (h' & Hh' & Hk)]; [left; exact Hr |].
        right. exists h'. split; [right; exact Hh' | exact Hk].
Qed.

(** Every row is covered after an insertion: the row inserted and the
    rows that were there. *)
Lemma bin_insert_covers (r : grid_row) (l : list grid_row) :
  (exists b, In b (bin_insert r l) /\ same_key r b /\ (gZ r <= gZ b)%Q)
  /\ (forall h, In h l ->
        exists b, In b (bin_insert r l) /\ same_key h b /\ (gZ h <= gZ b)%Q).
Proof.
  induction l as [| h t [IHr IHl]]; simpl.
  - split; [| intros ? []].
    exists r. split; [left; reflexivity |].
    split; [apply same_key_refl | lra].
  - pose proof (key_compare_spec r h) as Hc.
    destruct (key_compare r h).
    + destruct (Qmax_cases (gZ h) (gZ r)) as (_ & Hh & Hr). split.
      * exists (row_max h r). split; [left; reflexivity |].
        split; [destruct Hc; split; assumption | exact Hr].
      * intros x [<- | Hx].
        -- exists (row_max h r). split; [left; reflexivity |].
           split; [split; reflexivity | exact Hh].
        -- exists x. split; [right; exact Hx |].
           split; [apply same_key_refl | lra].
    + split.
      * exists r. split; [left; reflexivity |].
        split; [apply same_key_refl | lra].
      * intros x Hx. exists x. split; [right; exact Hx |].
        split; [apply same_key_refl | lra].
    + split.
      * destruct IHr as (b & Hb & Hk). exists b.
        split; [right; exact Hb | exact Hk].
      * intros x [<- | Hx].
        -- exists h. split; [left; reflexivity |].
           split; [apply same_key_refl | lra].
        -- destruct (IHl x Hx) as (b & Hb & Hk). exists b.
           split; [right; exact Hb | exact Hk].
Qed.

Lemma sorted_keys_unique (l : list grid_row) :
  StronglySorted key_before l ->
  forall b b', In b l -> In b' l -> same_key b b' -> b = b'.
Proof.
  induction 1 as [| a t Ht IH Ha]; intros b b' Hb Hb' Hk; [destruct Hb |].
  rewrite Forall_forall in Ha.
  destruct Hb as [<- | Hb], Hb' as [<- | Hb']; auto.
  - exfalso. eapply key_before_not_same; [apply Ha; exact Hb' | exact Hk].
  - exfalso. eapply key_before_not_same;
      [apply Ha; exact Hb | apply same_key_sym; exact Hk].
Qed.

(** The loop of [bin_rows]: the rows stay in key order, every row comes
    from a row read with that key, and every row read is covered by a
    row with its key and a value at least as large. *)
Lemma bin_fold_inv (df : list grid_row) :
  forall acc seen,
    StronglySorted key_before acc ->
    (forall b, In b acc ->
       exists r, In r seen /\ same_key r b /\ gZ b = gZ r) ->
    (forall r, In r seen ->
       exists b, In b acc /\ same_key r b /\ (gZ r <= gZ b)%Q) ->
    StronglySorted key_before
      (fold_left (fun acc r => bin_insert r acc) df acc)
    /\ (forall b,
          In b (fold_left (fun acc r => bin_insert r acc) df acc) ->
          exists r, (In r df \/ In r seen) /\ same_key r b /\ gZ b = gZ r)
    /\ (forall r, In r df \/ In r seen ->
          exists b,
            In b (fold_left (fun acc r => bin_insert r acc) df acc)
            /\ same_key r b /\ (gZ r <= gZ b)%Q).
Proof.
  induction df as [| r df IH]; intros acc seen Hs Hfrom Hcov; simpl.
  - split; [exact Hs |]. split.
    + intros b Hb. destruct (Hfrom b Hb) as (r & Hr & Hk). eauto.
    + intros r [[] | Hr]. auto.
  - destruct (bin_insert_covers r acc) as [Hr Hl].
    destruct (IH (bin_insert r acc) (r :: seen)) as (Hs' & Hfrom' & Hcov').
    + apply bin_insert_sorted. exact Hs.
    + intros b Hb.
      destruct (bin_insert_from _ _ _ Hb) as [Hk | (h & Hh & Hk & Hz)].
      * exists r. split; [left; reflexivity | exact Hk].
      * destruct (Hfrom h Hh) as (r0 & Hr0 & Hk0 & Hz0).
        exists r0. split; [right; exact Hr0 |].
        split; [eapply same_key_trans; eauto | congruence].
    + intros r0 [<- | Hr0]; [exact Hr |].
      destruct (Hcov r0 Hr0) as (h & Hh & Hk & Hz).
      destruct (Hl h Hh) as (b & Hb & Hk' & Hz').
      exists b. split; [exact Hb |].
      split; [eapply same_key_trans; eauto | lra].
    + split; [exact Hs' |]. split.
      * intros b Hb. destruct (Hfrom' b Hb) as (r0 & Hr0 & Hk).
        exists r0. split; [| exact Hk].
        destruct Hr0 as [Hr0 | [E | Hr0]];
          [left; right; exact Hr0 | left; left; exact E | right; exact Hr0].
      * intros r0 Hr0. apply Hcov'.
        destruct Hr0 as [[E | Hr0] | Hr0];
          [right; left; exact E | left; exact Hr0 | right; right; exact Hr0].
Qed.

(** [bin_rows] keeps, for every key, the largest value read with it. *)
Lemma bin_rows_max (df : list grid_row) (b : grid_row) :
  In b (bin_rows df) ->
  (exists r, In r df /\ same_key r b /\ gZ b = gZ r)
  /\ (forall r, In r df -> same_key r b -> (gZ r <= gZ b)%Q).
Proof.
  intros Hb. unfold bin_rows in *.
  destruct (bin_fold_inv df [] []) as (Hs & Hfrom & Hcov).
  - constructor.
  - intros ? [].
  - intros ? [].
  - split.
    + destruct (Hfrom b Hb) as (r & [Hr | []] & Hk). eauto.
    + intros r Hr Hk.
      destruct (Hcov r (or_introl Hr)) as (b' & Hb' & Hk' & Hz).
      assert (b' = b).
      { apply (sorted_keys_unique _ Hs); auto.
        eapply same_key_trans; [apply same_key_sym; exact Hk' | exact Hk]. }
      subst b'. exact Hz.
Qed.

Lemma img_set_Forall (P : Q -> Prop) (img img' : image) (r c : Z) (v : Q) :
  Forall (Forall P) img -> P v ->
  img_set img r c v = inr img' ->
  Forall (Forall P) img'.
Proof.
  intros Himg Hv. unfold img_set. intros H.
  apply bind_inr in H. destruct H as (i & _ & H).
  apply bind_inr in H. destruct H as (j & _ & H).
  inversion H; subst img'; clear H.
  apply Forall_list_set; [exact Himg |].
  apply Forall_list_set; [| exact Hv].
  destruct (nth_in_or_default i img []) as [Hin | ->]; [| constructor].
  rewrite Forall_forall in Himg. apply Himg. exact Hin.
Qed.

Lemma img_assign_Forall (P : Q -> Prop) (cells : list (Z * Z * Q)) :
  forall img img',
    Forall (Forall P) img ->
    Forall (fun cell : Z * Z * Q => P (snd cell)) cells ->
    img_assign img cells = inr img' ->
    Forall (Forall P) img'.
Proof.
  unfold img_assign.
  induction cells as [| [[r c] v] cells IH]; intros img img' Himg Hc H;
    simpl in H.
  - inversion H; subst. exact Himg.
  - apply bind_inr in H. destruct H as (img1 & H1 & H).
    inversion Hc; subst. simpl in *.
    apply (IH img1 img'); auto. eapply img_set_Forall; eauto.
Qed.

(** The cells of the raster are the initial zero or the value of a binned
    row. *)
Lemma interpolate_df_cells (xyz_points : list (Q * Q * Q)) (round_val : Q)
    (img : image) (minx miny : Q) :
  interpolate_df xyz_points round_val = inr (img, minx, miny) ->
  ~ (round_val == 0)%Q
  /\ Forall (Forall (fun v =>
               v = 0%Q
               \/ exists b,
                    In b (bin_rows (number_frame xyz_points round_val))
                    /\ v = gZ b)) img.
Proof.
  intros H.
  assert (Hnz : ~ (round_val == 0)%Q).
  { intros Hz.
    rewrite (interpolate_df_nothing_binned xyz_points round_val) in H;
      [discriminate | apply groupby_max_zero; exact Hz]. }
  split; [exact Hnz |].
  unfold interpolate_df in H.
  apply bind_inr in H. destruct H as (plan & Hplan & H).
  apply bind_inr in H. destruct H as (img' & Himg & H).
  inversion H; subst; clear H.
  eapply img_assign_Forall; [| | exact Himg].
  - unfold np_zeros. apply Forall_forall. intros row Hrow.
    apply repeat_spec in Hrow. subst row.
    apply Forall_forall. intros x Hx. apply repeat_spec in Hx. auto.
  - destruct (plan_raster_inr xyz_points round_val plan Hplan)
      as (_ & _ & ->).
    rewrite groupby_max_number by exact Hnz.
    apply Forall_forall. intros [rc v] Hin. simpl.
    apply in_combine_r in Hin. apply in_map_iff in Hin.
    destruct Hin as (b & <- & Hb). right. exists b. auto.
Qed.

(** X5.  Every cell of the raster that [interpolate_df] returns holds
    either the initial zero or the largest squared height of a bin: the
    squared height of an input point that no input point rounded to the
    same multiples of [round_val] exceeds.  No cell is negative. *)
Theorem interpolate_df_raster_holds_bin_maxima :
  forall (xyz_points : list (Q * Q * Q)) (round_val : Q) (img : image)
         (minx miny : Q),
    interpolate_df xyz_points round_val = inr (img, minx, miny) ->
    forall row v,
      In row img -> In v row ->
      (0 <= v)%Q
      /\ (v = 0%Q
          \/ exists x y z,
               In (x, y, z) xyz_points
               /\ v = (z * z)%Q
               /\ forall x' y' z',
                    In (x', y', z') xyz_points ->
                    np_round (x' / round_val) = np_round (x / round_val) ->
                    np_round (y' / round_val) = np_round (y / round_val) ->
                    (z' * z' <= v)%Q).
Proof.
  intros pts rv img minx miny H row v Hrow Hv.
  destruct (interpolate_df_cells pts rv img minx miny H) as [Hnz Hall].
  rewrite Forall_forall in Hall. specialize (Hall row Hrow).
  rewrite Forall_forall in Hall.
  destruct (Hall v Hv) as [-> | (b & Hb & ->)].
  - split; [lra | left; reflexivity].
  - destruct (bin_rows_max _ _ Hb) as [(r & Hr & Hk & Hz) Hmax].
    unfold number_frame in Hr. apply in_map_iff in Hr.
    destruct Hr as ([[x y] z] & <- & Hp). simpl in Hz.
    split.
    + rewrite Hz. destruct (Qlt_le_dec z 0); nra.
    + right. exists x, y, z. split; [exact Hp |]. split; [exact Hz |].
      intros x' y' z' Hp' Hx Hy.
      apply (Hmax (mk_grid_row x' y' (z' * z')%Q
                     (inject_Z (np_round (x' / rv)) * rv)%Q
                     (inject_Z (np_round (y' / rv)) * rv)%Q)).
      * unfold number_frame. apply in_map_iff.
        exists (x', y', z'). split; [reflexivity | exact Hp'].
      * eapply same_key_trans; [| exact Hk].
        split; simpl; [rewrite Hx | rewrite Hy]; reflexivity.
Qed.

Lemma interpolate_df_raster_witness :
  exists img,
    interpolate_df grid_points 2 = inr (img, 0%Q, 0%Q)
    /\ forall row v,
         In row img -> In v row ->
         (0 <= v)%Q
         /\ (v = 0%Q
             \/ exists x y z,
                  In (x, y, z) grid_points
                  /\ v = (z * z)%Q
                  /\ forall x' y' z',
                       In (x', y', z') grid_points ->
                       np_round (x' / 2) = np_round (x / 2) ->
                       np_round (y' / 2) = np_round (y / 2) ->
                       (z' * z' <= v)%Q).
Proof.
  destruct (interpolate_df grid_points 2) as [e | [[img minx] miny]] eqn:E;
    vm_compute in E; [discriminate |].
  inversion E; subst. eexists. split; [reflexivity |].
  apply (interpolate_df_raster_holds_bin_maxima grid_points 2 _ 0%Q 0%Q).
  vm_compute. reflexivity.
Defined.

(* ================================================================== *)
(** * Further properties: the peaks *)
(* ================================================================== *)

Lemma sequence_length {A : Type} (l : list (result A)) :
  forall r, sequence l = inr r -> length r = length l.
Proof.
  induction l as [| m l IH]; intros r H; simpl in H.
  - inversion H. reflexivity.
  - apply bind_inr in H. destruct H as (a & _ & H).
    apply bind_inr in H. destruct H as (r' & Hr & H).
    inversion H; subst. simpl. f_equal. apply IH. exact Hr.
Qed.

Lemma mapped_as_zip (mins : Q * Q * Q) (round_val : Q)
    (indices : list (Z * Z)) :
  forall z : list Q,
    map add_vectors
        (combine (combine (combine indices (repeat mins (length indices))) z)
                 (repeat round_val (length indices)))
    = zip_with (fun idx zz => add_vectors (idx, mins, zz, round_val))
               indices z.
Proof.
  induction indices as [| i indices IH]; intros [| z0 z]; simpl;
    try reflexivity.
  rewrite IH. reflexivity.
Qed.

Lemma ForallOrdPairs_filter {A : Type} (R : A -> A -> Prop)
    (P : A -> bool) (l : list A) :
  ForallOrdPairs R l -> ForallOrdPairs R (filter P l).
Proof.
  induction 1 as [| a l Ha Hl IH]; simpl; [constructor |].
  destruct (P a); [| exact IH]. constructor; [| exact IH].
  apply Forall_forall. intros b Hb. apply filter_In in Hb.
  rewrite Forall_forall in Ha. apply Ha. tauto.
Qed.

Lemma dedup_pairwise {A : Type} (eqb : A -> A -> bool) (l : list A) :
  ForallOrdPairs (fun a b => eqb a b = false) (dedup eqb l).
Proof.
  induction l as [| a l IH]; simpl; constructor.
  - apply Forall_forall. intros b Hb. apply filter_In in Hb.
    destruct Hb as [_ Hb]. apply negb_true_iff in Hb. exact Hb.
  - apply ForallOrdPairs_filter. exact IH.
Qed.

Lemma dedup_pairwise_id {A : Type} (eqb : A -> A -> bool) (l : list A) :
  ForallOrdPairs (fun a b => eqb a b = false) l -> dedup eqb l = l.
Proof.
  induction 1 as [| a l Ha Hl IH]; simpl; [reflexivity |].
  rewrite IH. f_equal. apply forallb_filter_id.
  apply forallb_forall. intros b Hb. rewrite Forall_forall in Ha.
  rewrite (Ha b Hb). reflexivity.
Qed.

Lemma ForallOrdPairs_zip_with {A B C : Type} (R : A -> A -> Prop)
    (R' : C -> C -> Prop) (f : A -> B -> C) (l : list A) :
  (forall a b x y, R a b -> R' (f a x) (f b y)) ->
  ForallOrdPairs R l ->
  forall m, ForallOrdPairs R' (zip_with f l m).
Proof.
  intros Hf. induction 1 as [| a l Ha Hl IH]; intros [| x m]; simpl;
    try constructor.
  - apply Forall_forall. intros c Hc. apply in_zip_with in Hc.
    destruct Hc as (i & a' & y & Ha' & _ & ->).
    apply Hf. rewrite Forall_forall in Ha. apply Ha.
    eapply nth_error_In; eauto.
  - apply IH.
Qed.

Lemma add_vectors_distinct (mins : Q * Q * Q) (round_val : Q)
    (i j : Z * Z) (z1 z2 : Q) :
  (0 < round_val)%Q ->
  index_eqb i j = false ->
  coord_eqb (add_vectors (i, mins, z1, round_val))
            (add_vectors (j, mins, z2, round_val)) = false.
Proof.
  intros Hrv Hij. destruct i as [y1 x1], j as [y2 x2].
  destruct mins as [[minx miny] minz]. simpl.
  assert (Hne : ~ (round_val == 0)%Q) by lra.
  destruct (Qeq_bool (minx + inject_Z x1 * round_val)
                     (minx + inject_Z x2 * round_val)) eqn:Ex;
    [| reflexivity].
  destruct (Qeq_bool (miny + inject_Z y1 * round_val)
                     (miny + inject_Z y2 * round_val)) eqn:Ey;
    [| reflexivity].
  exfalso. apply Qeq_bool_iff in Ex, Ey.
  assert (Hx : x1 = x2).
  { apply inject_Z_injective. apply (Qmult_inj_r _ _ round_val Hne). lra. }
  assert (Hy : y1 = y2).
  { apply inject_Z_injective. apply (Qmult_inj_r _ _ round_val Hne). lra. }
  subst. unfold index_eqb in Hij. simpl in Hij.
  rewrite !Z.eqb_refl in Hij. discriminate.
Qed.

(** X6.  For a positive [round_val], whenever [find_n_clusters_peaks]
    returns, the cluster count is at least 1; it is 1 when no seed
    coordinate is returned, and otherwise it equals the number of seed
    coordinates, so that the seeds handed to k-means always match the
    requested number of clusters. *)
Theorem find_n_clusters_peaks_counts :
  forall (peak_local_max : image -> Z -> list (Z * Z))
         (cluster_data : list (Q * Q * Q)) (round_val : Q) (min_dist : Z)
         (n : Z) (coordinates : list (Q * Q * Q)),
    (0 < round_val)%Q ->
    find_n_clusters_peaks peak_local_max cluster_data round_val min_dist
    = inr (n, coordinates) ->
    1 <= n
    /\ (coordinates = [] -> n = 1)
    /\ (coordinates <> [] -> n = Z.of_nat (length coordinates)).
Proof.
  intros plm data rv md n coords Hrv H. unfold find_n_clusters_peaks in H.
  apply bind_inr in H. destruct H as ([[img minx] miny] & _ & H).
  apply bind_inr in H. destruct H as (z & Hz & H).
  inversion H; subst n coords; clear H.
  set (indices := dedup index_eqb (plm img md)) in *.
  apply sequence_length in Hz. rewrite length_map in Hz.
  rewrite mapped_as_zip.
  rewrite dedup_pairwise_id.
  2:{ apply (ForallOrdPairs_zip_with
               (fun a b => index_eqb a b = false)
               (fun a b => coord_eqb a b = false)).
      - intros a b x y Hab. apply add_vectors_distinct; assumption.
      - apply dedup_pairwise. }
  assert (Hlen : length (zip_with
                           (fun idx zz =>
                              add_vectors (idx, (minx, miny, 0%Q), zz, rv))
                           indices z) = length indices)
    by (apply zip_with_length; symmetry; exact Hz).
  split; [lia |]. split.
  - intros E. rewrite E in Hlen. simpl in Hlen. rewrite <- Hlen. reflexivity.
  - intros Hne. rewrite Hlen.
    destruct indices as [| i indices']; [| simpl length; lia].
    simpl in Hne. congruence.
Qed.

Lemma find_n_clusters_peaks_witness :
  (0 < 1)%Q
  /\ find_n_clusters_peaks one_peak
       (map (fun g => (X (g_point g), Y (g_point g), Zc (g_point g)))
            one_grouped_point) 1 1
     = inr (1, [(0, 0, 9)%Q])
  /\ 1 <= 1.
Proof.
  assert (H0 : (0 < 1)%Q) by reflexivity.
  assert (H1 : find_n_clusters_peaks one_peak
                 (map (fun g => (X (g_point g), Y (g_point g),
                                 Zc (g_point g)))
                      one_grouped_point) 1 1
               = inr (1, [(0, 0, 9)%Q]))
    by (vm_compute; reflexivity).
  split; [exact H0 |]. split; [exact H1 |].
  exact (proj1 (find_n_clusters_peaks_counts one_peak _ 1 1 1 _ H0 H1)).
Defined.

(* ================================================================== *)
(** * Further properties: the polygon table *)
(* ================================================================== *)

Lemma drop_rows_all {A : Type} (l : list A) :
  drop_rows l (seq 0 (length l)) 0 = [].
Proof.
  assert (G : forall (l : list A) (labels : list nat) (i : nat),
             (forall j, (i <= j < i + length l)%nat -> In j labels) ->
             drop_rows l labels i = []).
  { clear. induction l as [| r l IH]; intros labels i H; simpl;
      [reflexivity |].
    assert (E : existsb (Nat.eqb i) labels = true).
    { apply existsb_exists. exists i. split.
      - apply H. simpl. lia.
      - apply Nat.eqb_refl. }
    rewrite E. apply IH. intros j Hj. apply H. simpl. lia. }
  apply G. intros j Hj. apply in_seq. lia.
Qed.

Lemma convex_hullify_unfold (ConvexHull : list (Q * Q) -> result (list nat))
    (old_tree_df : list polygon_row) (points : list point)
    (kmean_pols : bool) :
  convex_hullify ConvexHull old_tree_df points kmean_pols
  = hullify_loop ConvexHull kmean_pols (mk_hull_state points [] [])
                 (groupby Classification points).
Proof.
  unfold convex_hullify, DataFrame_drop. rewrite drop_rows_all. reflexivity.
Qed.

(** X7.  [convex_hullify] rebuilds the polygon table from scratch: what
    the table held before the call has no influence on the outcome, the
    table, the caller's frame or the checks made. *)
Theorem convex_hullify_forgets_old_polygons :
  forall (ConvexHull : list (Q * Q) -> result (list nat))
         (old_tree_df : list polygon_row) (points : list point)
         (kmean_pols : bool),
    convex_hullify ConvexHull old_tree_df points kmean_pols
    = convex_hullify ConvexHull [] points kmean_pols.
Proof.
  intros. rewrite !convex_hullify_unfold. reflexivity.
Qed.

Section HullLoop.

Variable ConvexHull : list (Q * Q) -> result (list nat).
Variable kmean_pols : bool.

(** The two ways an iteration can leave the polygon table. *)
Lemma hullify_group_rows (st : hull_state) (name : Z) (group : list point) :
  tree_df (snd (hullify_group ConvexHull kmean_pols st (name, group)))
  = tree_df st
  \/ exists poly,
       hull_polygon ConvexHull group = inr poly
       /\ (kmean_pols = true -> (area poly < 800)%Q)
       /\ fst (hullify_group ConvexHull kmean_pols st (name, group)) = inr tt
       /\ tree_df (snd (hullify_group ConvexHull kmean_pols st (name, group)))
          = tree_df st ++ [hull_row name group poly].
Proof.
  unfold hullify_group.
  destruct (Z.of_nat (length group) <=? 3); cbn [snd fst].
  { left. rewrite drop_group_tree_df. reflexivity. }
  destruct (hull_polygon ConvexHull group) as [e | poly]; cbn [snd fst];
    [left; reflexivity |].
  destruct (py_div _ _) as [e | density]; cbn [snd fst];
    [left; reflexivity |].
  destruct (Qle_bool density 3); cbn [snd fst].
  { left. rewrite drop_group_tree_df. reflexivity. }
  destruct kmean_pols; cbn [andb].
  - destruct (Qle_bool 800 (area poly)) eqn:Ea; cbn [snd fst].
    + left. rewrite drop_group_tree_df. reflexivity.
    + right. exists poly. split; [reflexivity |].
      split; [intros _; apply Qle_bool_false_lt; exact Ea |].
      split; reflexivity.
  - cbn [snd fst]. right. exists poly. split; [reflexivity |].
    split; [discriminate |]. split; reflexivity.
Qed.

Lemma hullify_loop_rows (l : list (Z * list point)) :
  forall st r,
    In r (tree_df (snd (hullify_loop ConvexHull kmean_pols st l))) ->
    In r (tree_df st)
    \/ exists name group poly,
         In (name, group) l
         /\ r = hull_row name group poly
         /\ hull_polygon ConvexHull group = inr poly
         /\ (kmean_pols = true -> (area poly < 800)%Q).
Proof.
  induction l as [| [name group] l IH]; intros st r; cbn [hullify_loop];
    [auto |].
  pose proof (hullify_group_rows st name group) as Hg.
  destruct (hullify_group ConvexHull kmean_pols st (name, group))
    as [[e | u] st1]; cbn [fst snd raise] in *.
  - intros Hr. destruct Hg as [Hg | (poly & _ & _ & Hfst & _)];
      [| discriminate].
    rewrite Hg in Hr. auto.
  - intros Hr. destruct (IH st1 r Hr) as [Hin | (n & g & p & Hin & E)].
    + destruct Hg as [Hg | (poly & Hhull & Ha & _ & Hg)]; rewrite Hg in Hin.
      * left. exact Hin.
      * apply in_app_or in Hin. destruct Hin as [Hin | [Hin | []]].
        -- left. exact Hin.
        -- right. exists name, group, poly.
           split; [left; reflexivity |]. split; [symmetry; exact Hin |].
           split; assumption.
    + right. exists n, g, p. destruct E as (E1 & E2 & E3).
      split; [right; exact Hin |]. split; [exact E1 |].
      split; assumption.
Qed.

(** An iteration returns unless the hull of a group of more than three
    points cannot be built or has no area. *)
Lemma hullify_group_returns (st : hull_state) (name : Z)
    (group : list point) :
  fst (hullify_group ConvexHull kmean_pols st (name, group)) = inr tt
  <-> ((3 < length group)%nat ->
       exists poly, hull_polygon ConvexHull group = inr poly
                    /\ ~ (area poly == 0)%Q).
Proof.
  unfold hullify_group.
  destruct (Z.leb_spec (Z.of_nat (length group)) 3) as [Hn | Hn];
    cbn [fst].
  { split; [intros _ H; lia | reflexivity]. }
  destruct (hull_polygon ConvexHull group) as [e | poly]; cbn [fst].
  { split; [discriminate |]. intros H.
    destruct H as (poly & H & _); [lia | discriminate]. }
  unfold py_div. destruct (Qeq_bool (area poly) 0) eqn:Ea; cbn [fst].
  - split; [discriminate |]. intros H.
    destruct H as (poly' & H & Hne); [lia |].
    inversion H; subst poly'. apply Qeq_bool_iff in Ea. contradiction.
  - assert (Hret : fst (if Qle_bool (inject_Z (Z.of_nat (length group))
                                     / area poly) 3
                        then (ret tt,
                              drop_group name
                                (log_check name CheckDensity
                                   (log_check name CheckCount st)))
                        else
                          (if kmean_pols && Qle_bool 800 (area poly)
                           then (ret tt,
                                 drop_group name
                                   (if kmean_pols
                                    then log_check name CheckArea
                                           (log_check name CheckDensity
                                              (log_check name CheckCount st))
                                    else log_check name CheckDensity
                                           (log_check name CheckCount st)))
                           else
                             (ret tt,
                              append_row
                                (mk_polygon_row name poly
                                   (mean (map Zc group))
                                   (Z.of_nat (length group))
                                   (mean (map NormalX group))
                                   (mean (map NormalY group))
                                   (mean (map NormalZ group))
                                   (mean (map Coplanar group)))
                                (if kmean_pols
                                 then log_check name CheckArea
                                        (log_check name CheckDensity
                                           (log_check name CheckCount st))
                                 else log_check name CheckDensity
                                        (log_check name CheckCount st)))))
                   = inr tt).
    { destruct (Qle_bool _ 3); [reflexivity |].
      destruct (kmean_pols && _); reflexivity. }
    split; [| intros _; exact Hret].
    intros _ _. exists poly. split; [reflexivity |].
    apply Qeq_bool_neq. exact Ea.
Qed.

Lemma hullify_loop_returns (l : list (Z * list point)) :
  forall st,
    fst (hullify_loop ConvexHull kmean_pols st l) = inr tt
    <-> (forall name group,
            In (name, group) l -> (3 < length group)%nat ->
            exists poly, hull_polygon ConvexHull group = inr poly
                         /\ ~ (area poly == 0)%Q).
Proof.
  induction l as [| [name group] l IH]; intros st; cbn [hullify_loop].
  - split; [intros _ ? ? [] | reflexivity].
  - pose proof (hullify_group_returns st name group) as Hg.
    destruct (hullify_group ConvexHull kmean_pols st (name, group))
      as [[e | []] st1]; cbn [fst snd raise] in *.
    + split; [discriminate |]. intros H.
      assert (Habs : @inl exn unit e = inr tt).
      { apply Hg. intros Hlen.
        apply (H name group); [left; reflexivity | exact Hlen]. }
      discriminate.
    + rewrite IH. split.
      * intros H n g [E | Hin] Hlen.
        -- inversion E; subst. apply Hg; [reflexivity | exact Hlen].
        -- apply (H n g Hin Hlen).
      * intros H n g Hin Hlen. apply (H n g); [right; exact Hin | exact Hlen].
Qed.

End HullLoop.

(** X8.  [convex_hullify] returns without raising exactly when every group
    of more than three points has a hull that qhull and shapely accept
    and whose area is not zero; groups of at most three points can never
    make it raise. *)
Theorem convex_hullify_returns_iff_hulls_are_proper :
  forall (ConvexHull : list (Q * Q) -> result (list nat))
         (old_tree_df : list polygon_row) (points : list point)
         (kmean_pols : bool),
    fst (convex_hullify ConvexHull old_tree_df points kmean_pols) = inr tt
    <-> (forall name group,
            In (name, group) (groupby Classification points) ->
            (3 < length group)%nat ->
            exists poly, hull_polygon ConvexHull group = inr poly
                         /\ ~ (area poly == 0)%Q).
Proof.
  intros. rewrite convex_hullify_unfold. apply hullify_loop_returns.
Qed.

Lemma convex_hullify_returns_witness :
  fst (convex_hullify hull4 [] six_points false) = inr tt
  /\ In (7, filter (fun p => Classification p =? 7) six_points)
        (groupby Classification six_points)
  /\ exists poly,
       hull_polygon hull4 (filter (fun p => Classification p =? 7) six_points)
       = inr poly
       /\ ~ (area poly == 0)%Q.
Proof.
  assert (H1 : fst (convex_hullify hull4 [] six_points false) = inr tt)
    by (vm_compute; reflexivity).
  assert (H2 : In (7, filter (fun p => Classification p =? 7) six_points)
                  (groupby Classification six_points))
    by (vm_compute; right; left; reflexivity).
  split; [exact H1 |]. split; [exact H2 |].
  apply (proj1 (convex_hullify_returns_iff_hulls_are_proper
                  hull4 [] six_points false) H1 7 _ H2).
  vm_compute. lia.
Defined.

Lemma insert_key_sorted (k : Z) (ks : list Z) :
  StronglySorted Z.lt ks -> StronglySorted Z.lt (insert_key k ks).
Proof.
  induction ks as [| h t IH]; intros Hs; simpl.
  - constructor; constructor.
  - apply StronglySorted_inv in Hs. destruct Hs as [Ht Hh].
    destruct (Z.ltb_spec k h) as [Hlt | Hge].
    + constructor; [constructor; assumption |].
      constructor; [exact Hlt |].
      eapply Forall_impl; [| exact Hh]. intros x Hx. simpl in Hx. lia.
    + destruct (Z.eqb_spec k h) as [-> | Hne].
      * constructor; assumption.
      * constructor; [apply IH; exact Ht |].
        apply Forall_forall. intros x Hx. apply in_insert_key in Hx.
        rewrite Forall_forall in Hh. destruct Hx as [-> | Hx]; [lia | auto].
Qed.

Lemma unique_sorted_sorted (ks : list Z) :
  StronglySorted Z.lt (unique_sorted ks).
Proof.
  induction ks as [| k ks IH]; simpl; [constructor |].
  apply insert_key_sorted. exact IH.
Qed.

Lemma StronglySorted_app_l (a b : list Z) :
  StronglySorted Z.lt (a ++ b) -> StronglySorted Z.lt a.
Proof.
  induction a as [| x a IH]; simpl; intros H; [constructor |].
  apply StronglySorted_inv in H. destruct H as [Hs Hx].
  constructor; [apply IH; exact Hs |].
  apply Forall_app in Hx. tauto.
Qed.

Lemma StronglySorted_remove_mid (a b : list Z) (x : Z) :
  StronglySorted Z.lt (a ++ x :: b) -> StronglySorted Z.lt (a ++ b).
Proof.
  induction a as [| y a IH]; simpl; intros H.
  - apply StronglySorted_inv in H. tauto.
  - apply StronglySorted_inv in H. destruct H as [Hs Hy].
    constructor; [apply IH; exact Hs |].
    apply Forall_app in Hy. destruct Hy as [Ha Hb].
    inversion Hb; subst. apply Forall_app. split; assumption.
Qed.

Lemma hullify_loop_ids (ConvexHull : list (Q * Q) -> result (list nat))
    (kmean_pols : bool) (l : list (Z * list point)) :
  forall st,
    StronglySorted Z.lt (map xy_clusterID (tree_df st) ++ map fst l) ->
    StronglySorted Z.lt
      (map xy_clusterID
           (tree_df (snd (hullify_loop ConvexHull kmean_pols st l)))).
Proof.
  induction l as [| [name group] l IH]; intros st Hs; cbn [hullify_loop].
  - simpl in Hs. rewrite app_nil_r in Hs. exact Hs.
  - pose proof (hullify_group_rows ConvexHull kmean_pols st name group)
      as Hg.
    assert (Hs1 : StronglySorted Z.lt
                    (map xy_clusterID
                         (tree_df (snd (hullify_group ConvexHull kmean_pols
                                                      st (name, group))))
                     ++ map fst l)).
    { destruct Hg as [-> | (poly & _ & _ & _ & ->)].
      - simpl in Hs. eapply StronglySorted_remove_mid. exact Hs.
      - rewrite map_app. simpl. rewrite <- app_assoc. exact Hs. }
    destruct (hullify_group ConvexHull kmean_pols st (name, group))
      as [[e | u] st1]; cbn [fst snd raise] in *.
    + eapply StronglySorted_app_l. exact Hs1.
    + apply IH. exact Hs1.
Qed.

(** X9.  The polygon table that [convex_hullify] leaves lists its polygons
    by strictly increasing cluster id: one polygon at most per cluster,
    in the order of the cluster labels. *)
Theorem convex_hullify_polygon_ids_increase :
  forall (ConvexHull : list (Q * Q) -> result (list nat))
         (old_tree_df : list polygon_row) (points : list point)
         (kmean_pols : bool),
    StronglySorted Z.lt
      (map xy_clusterID
           (tree_df (snd (convex_hullify ConvexHull old_tree_df points
                                         kmean_pols)))).
Proof.
  intros. rewrite convex_hullify_unfold. apply hullify_loop_ids. simpl.
  unfold groupby. rewrite map_map. simpl. rewrite map_id.
  apply unique_sorted_sorted.
Qed.

Lemma sequence_in {A : Type} (l : list (result A)) :
  forall r a, sequence l = inr r -> In a r -> In (inr a) l.
Proof.
  induction l as [| m l IH]; intros r a H Ha; simpl in H.
  - inversion H; subst. destruct Ha.
  - apply bind_inr in H. destruct H as (x & Hx & H).
    apply bind_inr in H. destruct H as (r' & Hr & H).
    inversion H; subst r; clear H. destruct Ha as [Ha | Ha].
    + left. subst a. exact Hx.
    + right. eapply IH; eauto.
Qed.

Lemma nth_result_in {A : Type} (l : list A) (i : nat) (a : A) :
  nth_result l i = inr a -> In a l.
Proof.
  unfold nth_result. destruct (nth_error l i) eqn:E; [| discriminate].
  intros H. inversion H; subst. eapply nth_error_In; eauto.
Qed.

(** The ring of a hull polygon. *)
Lemma hull_polygon_ring (ConvexHull : list (Q * Q) -> result (list nat))
    (group : list point) (poly : list (Q * Q)) :
  hull_polygon ConvexHull group = inr poly ->
  (exists first middle,
      poly = first :: middle ++ [first] /\ (2 <= length middle)%nat)
  /\ (forall c, In c poly -> exists p, In p group /\ c = (X p, Y p)).
Proof.
  unfold hull_polygon. intros H.
  apply bind_inr in H. destruct H as (vertices & _ & H).
  apply bind_inr in H. destruct H as (wkt & Hwkt & H).
  unfold loads in H. destruct (Nat.ltb_spec (length wkt) 4) as [Hl | Hl];
    [discriminate |].
  inversion H; subst poly; clear H.
  unfold build_wkt in Hwkt.
  apply bind_inr in Hwkt. destruct Hwkt as (ring & Hring & Hwkt).
  apply bind_inr in Hwkt. destruct Hwkt as (v0 & Hv0 & Hwkt).
  apply bind_inr in Hwkt. destruct Hwkt as (first & Hfirst & Hwkt).
  inversion Hwkt; subst wkt; clear Hwkt.
  set (coords := map (fun p => (X p, Y p)) group) in *.
  split.
  - destruct vertices as [| v vs]; [discriminate |].
    cbn in Hv0. inversion Hv0; subst v0.
    simpl in Hring.
    apply bind_inr in Hring. destruct Hring as (a & Ha & Hring).
    apply bind_inr in Hring. destruct Hring as (rest & _ & Hring).
    inversion Hring; subst ring.
    rewrite Ha in Hfirst. inversion Hfirst; subst a.
    exists first, rest. split; [reflexivity |].
    simpl in Hl. rewrite length_app in Hl. simpl in Hl. lia.
  - intros c Hc.
    assert (Hin : In c coords).
    { apply in_app_or in Hc. destruct Hc as [Hc | [<- | []]].
      - apply (sequence_in _ _ _ Hring) in Hc.
        apply in_map_iff in Hc. destruct Hc as (v & Hv & _).
        eapply nth_result_in; eauto.
      - eapply nth_result_in; eauto. }
    unfold coords in Hin. apply in_map_iff in Hin.
    destruct Hin as (p & <- & Hp). exists p. auto.
Qed.

(** X10.  Every polygon that [convex_hullify] writes is a closed ring: its
    first and last coordinates coincide and it has at least four
    coordinates; and every coordinate of the ring is the (X, Y) of an
    input point of the polygon's own cluster. *)
Theorem convex_hullify_polygons_are_closed_rings :
  forall (ConvexHull : list (Q * Q) -> result (list nat))
         (old_tree_df : list polygon_row) (points : list point)
         (kmean_pols : bool) (r : polygon_row),
    In r (tree_df (snd (convex_hullify ConvexHull old_tree_df points
                                       kmean_pols))) ->
    (exists first middle,
        geometry r = first :: middle ++ [first]
        /\ (2 <= length middle)%nat)
    /\ (forall c, In c (geometry r) ->
          exists p, In p points /\ Classification p = xy_clusterID r
                    /\ c = (X p, Y p)).
Proof.
  intros ConvexHull old points kp r Hr.
  rewrite convex_hullify_unfold in Hr.
  apply hullify_loop_rows in Hr.
  destruct Hr as [[] | (name & group & poly & Hin & -> & Hhull & _)].
  apply in_groupby in Hin.
  destruct (hull_polygon_ring ConvexHull group poly Hhull) as [Hring Hpts].
  split; [exact Hring |]. simpl.
  intros c Hc. destruct (Hpts c Hc) as (p & Hp & ->).
  rewrite Hin in Hp. apply filter_In in Hp. destruct Hp as [Hp Hk].
  apply Z.eqb_eq in Hk. exists p. auto.
Qed.

Lemma convex_hullify_ring_witness :
  In six_points_row (tree_df (snd (convex_hullify hull4 [] six_points false)))
  /\ exists first middle,
       geometry six_points_row = first :: middle ++ [first]
       /\ (2 <= length middle)%nat.
Proof.
  assert (H : In six_points_row
                 (tree_df (snd (convex_hullify hull4 [] six_points false))))
    by (vm_compute; left; reflexivity).
  split; [exact H |].
  exact (proj1 (convex_hullify_polygons_are_closed_rings
                  hull4 [] six_points false six_points_row H)).
Defined.

(** X11.  In the k-means context ([kmean_pols] true) every polygon that
    [convex_hullify] writes has an area below 800. *)
Theorem convex_hullify_kmean_polygons_are_small :
  forall (ConvexHull : list (Q * Q) -> result (list nat))
         (old_tree_df : list polygon_row) (points : list point)
         (r : polygon_row),
    In r (tree_df (snd (convex_hullify ConvexHull old_tree_df points true))) ->
    (area (geometry r) < 800)%Q.
Proof.
  intros ConvexHull old points r Hr.
  rewrite convex_hullify_unfold in Hr.
  apply hullify_loop_rows in Hr.
  destruct Hr as [[] | (name & group & poly & _ & -> & _ & Ha)].
  simpl. apply Ha. reflexivity.
Qed.

Lemma convex_hullify_kmean_witness :
  In six_points_row (tree_df (snd (convex_hullify hull4 [] six_points true)))
  /\ (area (geometry six_points_row) < 800)%Q.
Proof.
  assert (H : In six_points_row
                 (tree_df (snd (convex_hullify hull4 [] six_points true))))
    by (vm_compute; left; reflexivity).
  split; [exact H |].
  exact (convex_hullify_kmean_polygons_are_small
           hull4 [] six_points six_points_row H).
Defined.

(* ================================================================== *)
(** * Further properties: masks, clustering input and the join *)
(* ================================================================== *)

Lemma boolean_index_map {A : Type} (f : A -> bool) (l : list A) :
  boolean_index l (map f l) = filter f l.
Proof.
  induction l as [| a l IH]; simpl; [reflexivity |].
  rewrite IH. reflexivity.
Qed.

Lemma filter_filter {A : Type} (f g : A -> bool) (l : list A) :
  filter g (filter f l) = filter (fun a => f a && g a) l.
Proof.
  induction l as [| a l IH]; simpl; [reflexivity |].
  destruct (f a); simpl; [destruct (g a) |]; rewrite IH; reflexivity.
Qed.

Lemma cluster_points_filter (raw_points : list point) :
  cluster_points raw_points
  = filter (fun p => negb (Classification p =? 2)) raw_points.
Proof.
  unfold cluster_points, ground_mask. rewrite map_map.
  apply (boolean_index_map (fun p => negb (Classification p =? 2))).
Qed.

Lemma clustering_input_masks (raw_points : list point) :
  boolean_index raw_points (masks raw_points)
  = filter (fun p => negb ((Classification p =? 2)
                           || (NumberOfReturns p <? 2))) raw_points.
Proof.
  rewrite masks_pointwise.
  apply (boolean_index_map
           (fun p => negb ((Classification p =? 2)
                           || (NumberOfReturns p <? 2)))).
Qed.

(** X12.  The points handed to the density clusterer are exactly the
    candidates of the spatial join (the non-ground points) that have at
    least two returns, in the same order: the join works on a superset of
    the clustering input. *)
Theorem clustering_input_is_join_candidates_with_two_returns :
  forall raw_points : list point,
    boolean_index raw_points (masks raw_points)
    = filter (fun p => 2 <=? NumberOfReturns p) (cluster_points raw_points).
Proof.
  intros raw. rewrite masks_pointwise, cluster_points_filter.
  rewrite boolean_index_map, filter_filter.
  apply filter_ext. intros p.
  destruct (Classification p =? 2); simpl; [reflexivity |].
  destruct (Z.ltb_spec (NumberOfReturns p) 2);
    destruct (Z.leb_spec 2 (NumberOfReturns p)); try reflexivity; lia.
Qed.

(** X13.  Whenever [hdbscan_on_points] returns, every point of its cluster
    table carries a non-negative cluster label and is, apart from that
    label, a raw point that is not ground and has at least two returns. *)
Theorem hdbscan_on_points_keeps_labelled_vegetation :
  forall (fit : Z -> Z -> list (list Q) -> result (list Z))
         (raw_points : list point) (min_cluster_size min_samples : Z)
         (xyz : bool) (out : list point) (p : point),
    hdbscan_on_points fit raw_points min_cluster_size min_samples xyz
    = inr out ->
    In p out ->
    0 <= Classification p
    /\ exists q, In q raw_points
                 /\ Classification q <> 2
                 /\ 2 <= NumberOfReturns q
                 /\ p = set_Classification q (Classification p).
Proof.
  intros fit raw mcs ms xyz out p H Hp. unfold hdbscan_on_points in H.
  apply bind_inr in H. destruct H as (labels & _ & H).
  apply bind_inr in H. destruct H as (clustered & Hc & H).
  inversion H; subst out; clear H.
  apply filter_In in Hp. destruct Hp as [Hp Hlab].
  apply Z.leb_le in Hlab. split; [exact Hlab |].
  unfold with_labels in Hc. destruct (_ =? _)%nat; [| discriminate].
  inversion Hc; subst clustered; clear Hc.
  apply in_zip_with in Hp. destruct Hp as (i & q & l & Hq & _ & ->).
  apply nth_error_In in Hq.
  rewrite clustering_input_masks in Hq.
  apply filter_In in Hq. destruct Hq as [Hq Hm].
  exists q. split; [exact Hq |].
  destruct (Z.eqb_spec (Classification q) 2) as [E | E];
    [simpl in Hm; discriminate |].
  destruct (Z.ltb_spec (NumberOfReturns q) 2) as [E' | E'];
    [simpl in Hm; discriminate |].
  split; [exact E |]. split; [exact E' |]. reflexivity.
Qed.

Lemma hdbscan_on_points_witness :
  hdbscan_on_points single_cluster_fit three_points 5 5 false
  = inr [set_Classification (pt 2 0 7 1 2) 0]
  /\ In (set_Classification (pt 2 0 7 1 2) 0)
        [set_Classification (pt 2 0 7 1 2) 0]
  /\ 0 <= Classification (set_Classification (pt 2 0 7 1 2) 0).
Proof.
  assert (H1 : hdbscan_on_points single_cluster_fit three_points 5 5 false
               = inr [set_Classification (pt 2 0 7 1 2) 0])
    by (vm_compute; reflexivity).
  assert (H2 : In (set_Classification (pt 2 0 7 1 2) 0)
                  [set_Classification (pt 2 0 7 1 2) 0])
    by (left; reflexivity).
  split; [exact H1 |]. split; [exact H2 |].
  exact (proj1 (hdbscan_on_points_keeps_labelled_vegetation
                  single_cluster_fit three_points 5 5 false _ _ H1 H2)).
Defined.

(** X14.  The output of [find_points_in_polygons] lists every pair of a
    point id and a polygon id at most once. *)
Theorem find_points_in_polygons_pairs_are_distinct :
  forall (intersects : Q * Q -> list (Q * Q) -> bool)
         (raw_points : list point) (polygon_df : list polygon_row),
    NoDup (map (fun g => (pid g, polygon_id g))
               (find_points_in_polygons intersects raw_points polygon_df)).
Proof.
  intros intersects raw_points polygon_df.
  unfold find_points_in_polygons.
  apply join_pairs_NoDup.
  apply add_pid_NoDup.
Qed.

(* ================================================================== *)
(** * Further properties: the second filter and the label table *)
(* ================================================================== *)

Lemma set_estimates_keeps (g : grouped_point) (e : Q * Q * Q * Q) :
  pid (set_estimates g e) = pid g
  /\ X (g_point (set_estimates g e)) = X (g_point g)
  /\ Y (g_point (set_estimates g e)) = Y (g_point g)
  /\ Zc (g_point (set_estimates g e)) = Zc (g_point g)
  /\ HAG1 (g_point (set_estimates g e)) = HAG1 (g_point g)
  /\ polygon_id (set_estimates g e) = polygon_id g
  /\ g_polygon (set_estimates g e) = g_polygon g.
Proof. destruct e as [[[nx ny] nz] cop]. repeat split. Qed.

(** X15.  [second_filter] only ever removes points and re-estimates
    normals: every point it returns is an input point with the same id,
    position, height above ground and polygon; and either the input comes
    back unchanged (the pipeline raised) or every returned point has a
    height above ground of at least 0.5. *)
Theorem second_filter_keeps_or_thresholds :
  forall (pdal_estimate : list grouped_point -> result (list (Q * Q * Q * Q)))
         (points : list grouped_point),
    (second_filter pdal_estimate points = points
     \/ Forall (fun g => (1 # 2 <= HAG1 (g_point g))%Q)
               (second_filter pdal_estimate points))
    /\ (forall g, In g (second_filter pdal_estimate points) ->
          exists g', In g' points
                     /\ pid g = pid g'
                     /\ X (g_point g) = X (g_point g')
                     /\ Y (g_point g) = Y (g_point g')
                     /\ Zc (g_point g) = Zc (g_point g')
                     /\ HAG1 (g_point g) = HAG1 (g_point g')
                     /\ polygon_id g = polygon_id g'
                     /\ g_polygon g = g_polygon g').
Proof.
  intros est points. unfold second_filter, pdal_pipeline.
  destruct (est _) as [e | estimates]; simpl.
  - split; [left; reflexivity |]. intros g Hg. exists g.
    repeat (split; [first [exact Hg | reflexivity] |]). reflexivity.
  - assert (Hin : forall g,
               In g (zip_with set_estimates
                       (filter (fun g => Qle_bool (1 # 2) (HAG1 (g_point g)))
                               points) estimates) ->
               exists g' e, In g' points
                            /\ Qle_bool (1 # 2) (HAG1 (g_point g')) = true
                            /\ g = set_estimates g' e).
    { intros g Hg. apply in_zip_with in Hg.
      destruct Hg as (i & a & e & Ha & _ & ->).
      apply nth_error_In, filter_In in Ha. exists a, e. tauto. }
    split.
    + right. apply Forall_forall. intros g Hg.
      destruct (Hin g Hg) as (g' & e & _ & Hh & ->).
      destruct (set_estimates_keeps g' e) as (_ & _ & _ & _ & -> & _).
      apply Qle_bool_iff. exact Hh.
    + intros g Hg. destruct (Hin g Hg) as (g' & e & Hg' & _ & ->).
      exists g'. split; [exact Hg' |]. apply set_estimates_keeps.
Qed.

Lemma second_filter_witness :
  In (hd (mk_grouped_point 0 (pt 0 0 0 0 0) 0 (poly 0 []))
         (second_filter failing_estimate one_grouped_point))
     (second_filter failing_estimate one_grouped_point)
  /\ exists g', In g' one_grouped_point
                /\ pid (hd (mk_grouped_point 0 (pt 0 0 0 0 0) 0 (poly 0 []))
                           (second_filter failing_estimate one_grouped_point))
                   = pid g'.
Proof.
  assert (H : In (hd (mk_grouped_point 0 (pt 0 0 0 0 0) 0 (poly 0 []))
                     (second_filter failing_estimate one_grouped_point))
                 (second_filter failing_estimate one_grouped_point))
    by (left; reflexivity).
  split; [exact H |].
  destruct (proj2 (second_filter_keeps_or_thresholds
                     failing_estimate one_grouped_point) _ H)
    as (g' & Hg' & Hpid & _).
  exists g'. split; assumption.
Defined.

Lemma fuse_labels_length (astype_str : Z -> string) (rows : list (Z * Z)) :
  length (fuse_labels astype_str rows) = length rows.
Proof.
  rewrite fuse_labels_unfold, length_combine. unfold pd_factorize.
  rewrite factorize_from_length, !length_map. apply Nat.min_id.
Qed.

Lemma map_zip_with_left {A B C : Type} (f : A -> B -> C) (g : C -> A)
    (l : list A) :
  (forall a b, g (f a b) = a) ->
  forall m, length l = length m -> map g (zip_with f l m) = l.
Proof.
  intros Hg. induction l as [| a l IH]; intros [| b m] H; simpl in *;
    try discriminate; [reflexivity |].
  rewrite Hg, IH; [reflexivity | lia].
Qed.

(** X16.  When [kmean_cluster] returns, its output table has exactly one
    row per row of the input table, in the same order and for the same
    point: labelling neither drops nor duplicates nor reorders points. *)
Theorem kmean_cluster_keeps_every_row :
  forall (peak_local_max : image -> Z -> list (Z * Z))
         (KMeans_fit : KMeans_params -> list (Q * Q * Q) -> result (list Z))
         (pdal_estimate : list grouped_point -> result (list (Q * Q * Q * Q)))
         (astype_str : Z -> string)
         (tree_df : list polygon_row) (self_tree_coords : list (Q * Q * Q))
         (xy_grouped_points : list grouped_point) (min_dist : Z)
         (relative_threshold round_val : Q)
         (out : list fused_point) (coords : list (Q * Q * Q)),
    kmean_cluster peak_local_max KMeans_fit pdal_estimate astype_str tree_df
                  self_tree_coords xy_grouped_points min_dist
                  relative_threshold round_val
    = inr (out, coords) ->
    map k_point out = xy_grouped_points.
Proof.
  intros plm fit est render tree_df tc rows md rt rv out coords Hrun.
  unfold kmean_cluster in Hrun.
  apply bind_inr in Hrun. destruct Hrun as (st & Hloop & Hret).
  inversion Hret; subst out coords; clear Hret.
  apply kmean_loop_returns in Hloop. destruct Hloop as (_ & Hidx & _).
  simpl in Hidx.
  apply map_zip_with_left; [reflexivity |].
  rewrite fuse_labels_length, length_combine, !length_map.
  apply (f_equal (@length Z)) in Hidx.
  rewrite !length_map in Hidx. lia.
Qed.

Lemma kmean_cluster_rows_witness :
  kmean_cluster no_peak budget_fit failing_estimate astype_str_float
    small_squares [(5, 5, 5)%Q] joined_points 1 0 1
  = inr (fst joined_run, snd joined_run)
  /\ map k_point (fst joined_run) = joined_points.
Proof.
  assert (H : kmean_cluster no_peak budget_fit failing_estimate
                astype_str_float small_squares [(5, 5, 5)%Q]
                joined_points 1 0 1
              = inr (fst joined_run, snd joined_run))
    by (vm_compute; reflexivity).
  split; [exact H |].
  exact (kmean_cluster_keeps_every_row _ _ _ _ _ _ _ _ _ _ _ _ H).
Defined.

Lemma factorize_uniques_length (values : list string) :
  forall u, (length u <= length (factorize_uniques u values))%nat.
Proof.
  intros u. destruct (factorize_uniques_extends values u) as (w & ->).
  rewrite length_app. lia.
Qed.

(** The codes of [pd.factorize] fill an initial segment of the naturals. *)
Lemma factorize_from_dense (values : list string) :
  forall u,
    (forall c, In c (factorize_from u values) ->
               0 <= c < Z.of_nat (length (factorize_uniques u values)))
    /\ (forall n, (length u <= n < length (factorize_uniques u values))%nat ->
                  In (Z.of_nat n) (factorize_from u values)).
Proof.
  induction values as [| k vs IH]; intros u; simpl.
  - split; [intros c [] | intros n Hn; lia].
  - destruct (index_of k u 0) as [i |] eqn:Hk.
    + destruct (IH u) as [Hr Hd]. split.
      * intros c [<- | Hc]; [| auto].
        apply index_of_nth in Hk.
        assert (i < length u)%nat by (apply nth_error_Some; congruence).
        pose proof (factorize_uniques_length vs u). lia.
      * intros n Hn. right. apply Hd. exact Hn.
    + destruct (IH (u ++ [k])) as [Hr Hd]. split.
      * intros c [<- | Hc]; [| auto].
        pose proof (factorize_uniques_length vs (u ++ [k])) as Hl.
        rewrite length_app in Hl. simpl in Hl. lia.
      * intros n Hn. destruct (Nat.eq_dec n (length u)) as [-> | Hne].
        -- left. reflexivity.
        -- right. apply Hd. rewrite length_app. simpl. lia.
Qed.

Lemma map_snd_combine_eq {A B : Type} (l : list A) :
  forall m : list B, length l = length m -> map snd (combine l m) = m.
Proof.
  induction l as [| a l IH]; intros [| b m] H; simpl in *;
    try discriminate; [reflexivity |].
  rewrite IH; [reflexivity | lia].
Qed.

(** X17.  The final labels are dense: every final label is a non-negative
    integer, and every non-negative integer below a final label is itself
    the final label of some row. *)
Theorem final_labels_are_dense :
  forall (astype_str : Z -> string) (rows : list (Z * Z)) (c : Z),
    In c (map snd (fuse_labels astype_str rows)) ->
    0 <= c
    /\ forall c', 0 <= c' <= c ->
                  In c' (map snd (fuse_labels astype_str rows)).
Proof.
  intros render rows c Hc.
  rewrite fuse_labels_unfold in *.
  rewrite map_snd_combine_eq in *
    by (unfold pd_factorize;
        rewrite factorize_from_length, !length_map; reflexivity).
  unfold pd_factorize in *.
  destruct (factorize_from_dense
              (map (fun r => combi_id render (fst r * 10) (snd r)) rows) [])
    as [Hr Hd].
  specialize (Hr c Hc). split; [lia |].
  intros c' Hc'. rewrite <- (Z2Nat.id c') by lia.
  apply Hd. simpl. lia.
Qed.

Lemma final_labels_witness :
  In 1 (map snd (fuse_labels astype_str_int [(1, 5); (2, 5); (1, 5)]))
  /\ In 0 (map snd (fuse_labels astype_str_int [(1, 5); (2, 5); (1, 5)])).
Proof.
  assert (H : In 1 (map snd (fuse_labels astype_str_int
                               [(1, 5); (2, 5); (1, 5)])))
    by (vm_compute; right; left; reflexivity).
  split; [exact H |].
  apply (proj2 (final_labels_are_dense astype_str_int _ 1 H)). lia.
Defined.

Lemma for_each_inr_each {A S : Type} (body : S -> A -> result S)
    (l : list A) :
  forall s s', for_each body s l = inr s' ->
               forall a, In a l -> exists s1 s2, body s1 a = inr s2.
Proof.
  induction l as [| x l IH]; intros s s' H a Ha; [destruct Ha |].
  simpl in H. apply bind_inr in H. destruct H as (s1 & H1 & H).
  destruct Ha as [<- | Ha]; [eauto |]. eapply IH; eauto.
Qed.

(** X18.  [kmean_cluster] returns only if every cluster id of the point
    table has exactly one row in the polygon table: a point whose cluster
    has no polygon, or two, makes it raise. *)
Theorem kmean_cluster_needs_one_polygon_per_cluster :
  forall (peak_local_max : image -> Z -> list (Z * Z))
         (KMeans_fit : KMeans_params -> list (Q * Q * Q) -> result (list Z))
         (pdal_estimate : list grouped_point -> result (list (Q * Q * Q * Q)))
         (astype_str : Z -> string)
         (tree_df : list polygon_row) (self_tree_coords : list (Q * Q * Q))
         (xy_grouped_points : list grouped_point) (min_dist : Z)
         (relative_threshold round_val : Q)
         (out : list fused_point) (coords : list (Q * Q * Q))
         (g : grouped_point),
    kmean_cluster peak_local_max KMeans_fit pdal_estimate astype_str tree_df
                  self_tree_coords xy_grouped_points min_dist
                  relative_threshold round_val
    = inr (out, coords) ->
    In g xy_grouped_points ->
    exists r,
      filter (fun r => xy_clusterID r =? g_xy_clusterID g) tree_df = [r].
Proof.
  intros plm fit est render tree_df tc rows md rt rv out coords g Hrun Hg.
  unfold kmean_cluster in Hrun.
  apply bind_inr in Hrun. destruct Hrun as (st & Hloop & _).
  destruct (for_each_inr_each _ _ _ _ Hloop _
              (groupby_complete g_xy_clusterID rows g Hg))
    as (s1 & s2 & Hbody).
  unfold kmean_cluster_body in Hbody.
  apply bind_inr in Hbody. destruct Hbody as (a & Ha & _).
  unfold tree_area in Ha.
  destruct (filter _ tree_df) as [| r [| r' l]]; try discriminate.
  exists r. reflexivity.
Qed.

Lemma kmean_cluster_polygon_witness :
  kmean_cluster no_peak budget_fit failing_estimate astype_str_float
    small_squares [(5, 5, 5)%Q] joined_points 1 0 1
  = inr (fst joined_run, snd joined_run)
  /\ In (hd (mk_grouped_point 0 (pt 0 0 0 0 0) 0 (poly 0 [])) joined_points)
        joined_points
  /\ exists r,
       filter (fun r => xy_clusterID r
                        =? g_xy_clusterID
                             (hd (mk_grouped_point 0 (pt 0 0 0 0 0) 0
                                                   (poly 0 []))
                                 joined_points))
              small_squares
       = [r].
Proof.
  assert (H1 : kmean_cluster no_peak budget_fit failing_estimate
                 astype_str_float small_squares [(5, 5, 5)%Q]
                 joined_points 1 0 1
               = inr (fst joined_run, snd joined_run))
    by (vm_compute; reflexivity).
  assert (H2 : In (hd (mk_grouped_point 0 (pt 0 0 0 0 0) 0 (poly 0 []))
                      joined_points) joined_points)
    by (left; reflexivity).
  split; [exact H1 |]. split; [exact H2 |].
  exact (kmean_cluster_needs_one_polygon_per_cluster
           _ _ _ _ _ _ _ _ _ _ _ _ _ H1 H2).
Defined.

(* ================================================================== *)
(** * Further properties: when the sub-clustering returns *)
(* ================================================================== *)

(** X19.  [kmean_cluster] returns only when no polygon of the point
    table qualifies for splitting: every cluster id then has one polygon,
    of negative id, of area below 2 or with fewer than 10 points.  On a
    returning run [self.tree_coords] is left as it was and every row
    carries [value_clusterID = -10]. *)
Theorem kmean_cluster_returns_only_without_split :
  forall (peak_local_max : image -> Z -> list (Z * Z))
         (KMeans_fit : KMeans_params -> list (Q * Q * Q) -> result (list Z))
         (pdal_estimate : list grouped_point -> result (list (Q * Q * Q * Q)))
         (astype_str : Z -> string)
         (tree_df : list polygon_row) (self_tree_coords : list (Q * Q * Q))
         (xy_grouped_points : list grouped_point) (min_dist : Z)
         (relative_threshold round_val : Q)
         (out : list fused_point) (coords : list (Q * Q * Q)),
    kmean_cluster peak_local_max KMeans_fit pdal_estimate astype_str tree_df
                  self_tree_coords xy_grouped_points min_dist
                  relative_threshold round_val
    = inr (out, coords) ->
    coords = self_tree_coords
    /\ (forall name group,
          In (name, group) (groupby g_xy_clusterID xy_grouped_points) ->
          exists a, tree_area tree_df name = inr a
                    /\ splittable name a group = false)
    /\ Forall (fun f => value_clusterID f = -10) out.
Proof.
  intros plm fit est render tree_df tc rows md rt rv out coords Hrun.
  destruct (kmean_cluster_returns plm fit est render tree_df tc rows md rt rv
              out coords Hrun) as (Hc & Hall & Hrows).
  split; [exact Hc |]. split; [exact Hall |].
  apply Forall_forall. intros f Hf. apply (Hrows f Hf).
Qed.

Lemma kmean_cluster_returns_witness :
  snd joined_run = [(5, 5, 5)%Q]
  /\ (forall name group,
        In (name, group) (groupby g_xy_clusterID joined_points) ->
        exists a, tree_area small_squares name = inr a
                  /\ splittable name a group = false)
  /\ Forall (fun f => value_clusterID f = -10) (fst joined_run).
Proof.
  apply (kmean_cluster_returns_only_without_split
           no_peak budget_fit failing_estimate astype_str_float
           small_squares [(5, 5, 5)%Q] joined_points 1 0 1
           (fst joined_run) (snd joined_run)).
  vm_compute. reflexivity.
Defined.

Lemma has_dup_NoDup (l : list Z) : NoDup l -> has_dup l = false.
Proof.
  induction 1 as [| a l Hnotin Hnd IH]; simpl; [reflexivity |].
  rewrite IH, orb_false_r.
  destruct (existsb (Z.eqb a) l) eqn:E; [| reflexivity].
  apply existsb_exists in E. destruct E as (x & Hx & Heq).
  apply Z.eqb_eq in Heq. subst x. contradiction.
Qed.

Lemma DataFrame_update_unique_index (self other : list (Z * Z)) :
  NoDup (map fst other) -> exists self', DataFrame_update self other = inr self'.
Proof.
  intros H. unfold DataFrame_update.
  destruct (index_eq _ _); [eauto |].
  rewrite (has_dup_NoDup _ H). eauto.
Qed.

Section KmeanReturns.

Variable peak_local_max : image -> Z -> list (Z * Z).
Variable KMeans_fit : KMeans_params -> list (Q * Q * Q) -> result (list Z).
Variable pdal_estimate : list grouped_point -> result (list (Q * Q * Q * Q)).
Variable tree_df : list polygon_row.
Variable min_dist : Z.
Variable relative_threshold round_val : Q.

Local Abbreviation body :=
  (kmean_cluster_body peak_local_max KMeans_fit pdal_estimate tree_df
                      min_dist relative_threshold round_val).

Lemma kmean_loop_total (l : list (Z * list grouped_point)) :
  (forall name group, In (name, group) l ->
     NoDup (map pid group)
     /\ exists a, tree_area tree_df name = inr a
                  /\ splittable name a group = false) ->
  forall st, exists st', for_each body st l = inr st'.
Proof.
  induction l as [| [name group] l IH]; intros Hall st; cbn [for_each].
  - eexists. reflexivity.
  - destruct (Hall name group (or_introl eq_refl)) as (Hnd & a & Ha & Hs).
    destruct (DataFrame_update_unique_index
                (labs st) (map (fun g => (pid g, -1)) group))
      as (labs' & Hupd).
    { rewrite map_map. exact Hnd. }
    assert (Hbody : body st (name, group)
                    = inr (mk_kmean_state labs' (tree_coords st))).
    { unfold kmean_cluster_body. rewrite Ha. simpl. rewrite Hs, Hupd.
      reflexivity. }
    rewrite Hbody. unfold bind. apply IH.
    intros n g Hin. apply Hall. right. exact Hin.
Qed.

End KmeanReturns.

(** X20.  When the point ids of the table are pairwise distinct, every
    cluster id has one polygon and no polygon qualifies for splitting,
    [kmean_cluster] returns, with [self.tree_coords] as it was. *)
Theorem kmean_cluster_returns_without_split :
  forall (peak_local_max : image -> Z -> list (Z * Z))
         (KMeans_fit : KMeans_params -> list (Q * Q * Q) -> result (list Z))
         (pdal_estimate : list grouped_point -> result (list (Q * Q * Q * Q)))
         (astype_str : Z -> string)
         (tree_df : list polygon_row) (self_tree_coords : list (Q * Q * Q))
         (xy_grouped_points : list grouped_point) (min_dist : Z)
         (relative_threshold round_val : Q),
    NoDup (map pid xy_grouped_points) ->
    (forall name group,
        In (name, group) (groupby g_xy_clusterID xy_grouped_points) ->
        exists a, tree_area tree_df name = inr a
                  /\ splittable name a group = false) ->
    exists out,
      kmean_cluster peak_local_max KMeans_fit pdal_estimate astype_str
                    tree_df self_tree_coords xy_grouped_points min_dist
                    relative_threshold round_val
      = inr (out, self_tree_coords).
Proof.
  intros plm fit est render tree_df tc rows md rt rv Hnd Hall.
  destruct (kmean_loop_total plm fit est tree_df md rt rv
              (groupby g_xy_clusterID rows))
    with (st := mk_kmean_state (map (fun g => (pid g, 0)) rows) tc)
    as (st & Hloop).
  { intros name group Hin. split; [| apply Hall; exact Hin].
    apply in_groupby in Hin. subst group.
    apply NoDup_map_filter. exact Hnd. }
  unfold kmean_cluster. rewrite Hloop. simpl.
  apply kmean_loop_returns in Hloop. destruct Hloop as (Hc & _).
  simpl in Hc. rewrite Hc. eexists. reflexivity.
Qed.

Lemma kmean_cluster_total_witness :
  exists out,
    kmean_cluster no_peak budget_fit failing_estimate astype_str_float
                  [poly 0 (square 0 0 1)] [(5, 5, 5)%Q] one_grouped_point
                  1 0 1
    = inr (out, [(5, 5, 5)%Q]).
Proof.
  apply kmean_cluster_returns_without_split.
  - repeat constructor. simpl. tauto.
  - intros name group Hin. vm_compute in Hin.
    destruct Hin as [Hin | []]. inversion Hin; subst.
    exists (2 # 2). split; vm_compute; reflexivity.
Defined.

(* ================================================================== *)
(** * Further properties: the calls of [find_n_clusters_peaks] *)
(* ================================================================== *)

(** X21.  [kmean_cluster_group] raises [TypeError] on every input: it
    calls [find_n_clusters_peaks] with the keyword [relative_threshold],
    which that function does not declare.  With that one keyword left
    out, the call binds and the function goes on with what
    [find_n_clusters_peaks] returns. *)
Theorem kmean_cluster_group_as_written_raises_TypeError :
  forall (peak_local_max : image -> Z -> list (Z * Z))
         (KMeans_fit : KMeans_params -> list (Q * Q * Q) -> result (list Z))
         (self_tree_coords : list (Q * Q * Q)) (group : list grouped_point)
         (min_dist : Z) (relative_threshold round_val : Q),
    kmean_cluster_group peak_local_max KMeans_fit
      self_tree_coords group min_dist relative_threshold round_val
    = raise TypeError
    /\ kmean_cluster_group_call peak_local_max KMeans_fit
         ["cluster_data"%string; "min_dist"%string; "round_val"%string]
         self_tree_coords group min_dist relative_threshold round_val
       = bind (find_n_clusters_peaks peak_local_max
                 (map (fun g => (X (g_point g), Y (g_point g),
                                 Zc (g_point g))) group)
                 round_val min_dist)
              (fun nc =>
                 if (0 <? length (snd nc))%nat then
                   bind (KMeans_fit (mk_KMeans (fst nc) 100 (Some (snd nc)))
                           (map (fun g => (X (g_point g), Y (g_point g),
                                           Zc (g_point g))) group))
                        (fun labels =>
                           ret (labels, self_tree_coords ++ snd nc))
                 else
                   bind (KMeans_fit (mk_KMeans (fst nc) 1 None)
                           (map (fun g => (X (g_point g), Y (g_point g),
                                           Zc (g_point g))) group))
                        (fun labels => ret (labels, self_tree_coords))).
Proof.
  intros plm fit tc group md rt rv. split.
  - unfold kmean_cluster_group.
    rewrite call_by_keyword_as_written. reflexivity.
  - unfold kmean_cluster_group_call. rewrite call_by_keyword_declared.
    destruct (find_n_clusters_peaks _ _ _ _) as [e | [n coordinates]];
      reflexivity.
Qed.

Section FindPeaks.

Variable peaks_of_frame :
  list grouped_point -> Q -> Z -> result (Z * list (Q * Q * Q)).
Variable tree_df : list polygon_row.
Variable min_dist : Z.
Variable relative_threshold round_val : Q.

Local Abbreviation body :=
  (find_peaks_body peaks_of_frame tree_df min_dist relative_threshold
                   round_val).

Lemma find_peaks_body_cases (u : unit) (name : Z)
    (group : list grouped_point) :
  (body u (name, group) = inr tt
   /\ exists a, tree_area tree_df name = inr a
                /\ splittable name a group = false)
  \/ (body u (name, group) = raise TypeError
      /\ ~ exists a, tree_area tree_df name = inr a
                     /\ splittable name a group = false).
Proof.
  unfold find_peaks_body.
  destruct (tree_area tree_df name) as [e | a] eqn:Ha.
  - right. split.
    + unfold tree_area in Ha.
      destruct (filter _ tree_df) as [| r [| r' l]]; inversion Ha;
        reflexivity.
    + intros (a & Habs & _). discriminate.
  - simpl. destruct (splittable name a group) eqn:Hs.
    + right. split.
      * reflexivity.
      * intros (a' & Ha' & Hs'). inversion Ha'; subst a'. congruence.
    + left. split; [reflexivity |]. exists a. auto.
Qed.

Lemma find_peaks_loop (l : list (Z * list grouped_point)) (u : unit) :
  (for_each body u l = inr tt
   /\ forall name group, In (name, group) l ->
        exists a, tree_area tree_df name = inr a
                  /\ splittable name a group = false)
  \/ (for_each body u l = raise TypeError
      /\ ~ forall name group, In (name, group) l ->
             exists a, tree_area tree_df name = inr a
                       /\ splittable name a group = false).
Proof.
  destruct u. induction l as [| [name group] l IH].
  - left. split; [reflexivity |]. intros ? ? [].
  - cbn [for_each].
    destruct (find_peaks_body_cases tt name group)
      as [[Hb Hok] | [Hb Hbad]]; rewrite Hb; unfold bind, raise.
    + destruct IH as [[Hl Hall] | [Hl Hnot]].
      * left. split; [exact Hl |].
        intros n g [E | Hin]; [inversion E; subst; exact Hok | auto].
      * right. split; [exact Hl |].
        intros Hall. apply Hnot. intros n g Hin. apply Hall. right.
        exact Hin.
    + right. split; [reflexivity |].
      intros Hall. apply Hbad. apply Hall. left. reflexivity.
Qed.

End FindPeaks.

(** X22.  [find_peaks] returns exactly when no polygon of the point
    table qualifies for peak detection, that is when every cluster id has
    one polygon and that polygon has a negative id, an area below 2 or
    fewer than 10 points; in every other case it raises [TypeError]: a
    cluster id without a single polygon fails the conversion of the area,
    and a qualifying polygon reaches the call of [find_n_clusters_peaks]
    with the undeclared keyword [relative_threshold]. *)
Theorem find_peaks_returns_iff_no_polygon_qualifies :
  forall (peaks_of_frame :
            list grouped_point -> Q -> Z -> result (Z * list (Q * Q * Q)))
         (tree_df : list polygon_row) (grouped_points : list grouped_point)
         (min_dist : Z) (relative_threshold round_val : Q),
    (find_peaks peaks_of_frame tree_df grouped_points min_dist
                relative_threshold round_val = inr tt
     <-> forall name group,
           In (name, group) (groupby g_xy_clusterID grouped_points) ->
           exists a, tree_area tree_df name = inr a
                     /\ splittable name a group = false)
    /\ (forall e,
          find_peaks peaks_of_frame tree_df grouped_points min_dist
                     relative_threshold round_val = inl e ->
          e = TypeError).
Proof.
  intros peaks tree_df rows md rt rv. unfold find_peaks.
  destruct (find_peaks_loop peaks tree_df md rt rv
              (groupby g_xy_clusterID rows) tt)
    as [[Hrun Hall] | [Hrun Hnot]]; rewrite Hrun.
  - split; [split; auto |]. intros e H. discriminate.
  - split.
    + split; [discriminate | intros H; contradiction].
    + intros e H. inversion H. reflexivity.
Qed.
